(** * Direct Bayesian Model Reduction ([dbmr.py]): shallow embedding

    The source is a 60-line numpy program with two functions,
    [dbmr_likelihood] and [estimate_dbmr].  The embedding keeps its shape:

    - a numpy 2-d array is a list of rows ([matrix]); the array operations the
      program calls ([sum(axis=..)], broadcasting division, [.T],
      [np.maximum], [np.log], the three [np.einsum] contractions, [np.argmax],
      item assignment) are list functions in [Module Np];
    - float64 numbers are read as exact reals ([R]); [np.log] is [ln] and
      [np.maximum] is [Rmax].  Rounding is outside this reading; division
      by zero, NaN and infinities are treated in [Module Binary64], the
      same program over binary64 numbers;
    - the unseeded draw [np.random.random_sample] is an input of the model
      ([random_sample]);
    - the arrays are taken with the shapes the docstring gives them; where
      numpy would raise on mismatched shapes the list functions truncate,
      and the statements carry the shapes as hypotheses;
    - a Python exception is a value of [exn] in the left summand of a result;
    - the [while] loop consumes one unit of fuel per executed pass, and
      [print] appends to an output list. *)

From Stdlib Require Import Reals List ZArith Lia Lra String Bool Arith Floats.
Import ListNotations.
Open Scope R_scope.

Definition matrix := list (list R).

(** ** numpy primitives *)

Module Np.

Fixpoint zip_with {A B D : Type} (f : A -> B -> D) (u : list A) (v : list B) : list D :=
  match u, v with
  | a :: u', b :: v' => f a b :: zip_with f u' v'
  | _, _ => []
  end.

Definition sum_list (v : list R) : R := fold_right Rplus 0 v.

(** [M[i, j]] *)
Definition get (M : matrix) (i j : nat) : R := nth j (nth i M []) 0.

(** [M[:, j]] *)
Definition column (j : nat) (M : matrix) : list R := map (fun row => nth j row 0) M.

(** [M.sum(axis=0)] for [M] with [ncols] columns. *)
Definition sum_axis0 (ncols : nat) (M : matrix) : list R :=
  map (fun j => sum_list (column j M)) (seq 0 ncols).

(** [M.sum(axis=1)] *)
Definition sum_axis1 (M : matrix) : list R := map sum_list M.

(** [M.T] for [M] with [ncols] columns. *)
Definition transpose (ncols : nat) (M : matrix) : matrix :=
  map (fun j => column j M) (seq 0 ncols).

(** [M / v[None, :]]: entry [i, j] divided by [v[j]].  Over the reals the
    quotient by a zero is Rocq's total division, where numpy gives NaN or
    an infinity: the statements that depend on a quotient carry the
    hypothesis that its denominator is not zero, and
    [Binary64.div_row_vector] is the division as binary64 performs it. *)
Definition div_row_vector (M : matrix) (v : list R) : matrix :=
  map (fun row => zip_with Rdiv row v) M.

(** [M / v[:, None]]: entry [i, j] divided by [v[i]]; zero denominators as
    for [div_row_vector], with [Binary64.div_col_vector] for binary64. *)
Definition div_col_vector (M : matrix) (v : list R) : matrix :=
  zip_with (fun row d => map (fun x => x / d) row) M v.

Definition maximum (M : matrix) (c : R) : matrix := map (map (fun x => Rmax x c)) M.

Definition log (M : matrix) : matrix := map (map ln) M.

Definition zeros (r c : nat) : matrix := repeat (repeat 0 c) r.

(** [M + c] *)
Definition add_scalar (M : matrix) (c : R) : matrix := map (map (fun x => x + c)) M.

(** [M[:, :] = c] *)
Definition fill (M : matrix) (c : R) : matrix := map (map (fun _ => c)) M.

Fixpoint set_nth {A : Type} (n : nat) (x : A) (l : list A) : list A :=
  match l, n with
  | [], _ => []
  | _ :: t, O => x :: t
  | h :: t, S m => h :: set_nth m x t
  end.

(** [M[r, c] = x].  numpy raises IndexError out of range; here the array is
    left as it is, and [argmax_lt] shows the program's indices are in range. *)
Definition set_item (M : matrix) (r c : nat) (x : R) : matrix :=
  set_nth r (set_nth c x (nth r M [])) M.

Definition dot (u v : list R) : R := sum_list (zip_with Rmult u v).

(** [np.einsum('ij,jk->ki', A, B)] for [B] with [ncols] columns:
    entry [k, i] is the sum over [j] of [A[i,j] * B[j,k]]. *)
Definition einsum_ij_jk_ki (ncols : nat) (A B : matrix) : matrix :=
  map (fun k => map (fun Ai => dot Ai (column k B)) A) (seq 0 ncols).

(** [np.einsum('ij,kj->ki', A, B)]: entry [k, i] is the sum over [j] of
    [A[i,j] * B[k,j]]. *)
Definition einsum_ij_kj_ki (A B : matrix) : matrix :=
  map (fun Bk => map (fun Ai => dot Ai Bk) A) B.

(** [np.einsum('ij,kj,ik->', A, B, L)]: the full contraction, accumulated row
    of [A] by row of [A], then row of [B] by row of [B]. *)
Definition einsum_ij_kj_ik (A B L : matrix) : R :=
  sum_list (zip_with (fun Ai Li =>
    sum_list (zip_with (fun Bk lik =>
      sum_list (zip_with (fun aij bkj => aij * bkj * lik) Ai Bk)) B Li)) A L).

(** [np.argmax] of a 1-d array: the first index holding the maximum. *)
Fixpoint argmax_from (best_i : nat) (best : R) (i : nat) (v : list R) : nat :=
  match v with
  | [] => best_i
  | x :: v' =>
      if Rlt_dec best x then argmax_from i x (S i) v'
      else argmax_from best_i best (S i) v'
  end.

Definition argmax (v : list R) : nat :=
  match v with
  | [] => O
  | x :: v' => argmax_from O x 1%nat v'
  end.

Inductive exn : Type := ValueError.

(** [np.argmax(M, axis=0)] for [M] with [ncols] columns; numpy raises
    ValueError ("attempt to get argmax of an empty sequence") when the
    reduced axis is empty. *)
Definition argmax_axis0 (ncols : nat) (M : matrix) : exn + list nat :=
  match M with
  | [] => inl ValueError
  | _ => inr (map (fun i => argmax (column i M)) (seq 0 ncols))
  end.

(** [enumerate(v)] *)
Definition enumerate {A : Type} (v : list A) : list (nat * A) :=
  combine (seq 0 (List.length v)) v.

End Np.

(** ** Index notation used by the statements *)

(** [bigsum n f] is [f 0 + ... + f (n-1)]. *)
Definition bigsum (n : nat) (f : nat -> R) : R := Np.sum_list (map f (seq 0 n)).

(** [M] is an [r] by [c] array. *)
Definition shape (r c : nat) (M : matrix) : Prop :=
  List.length M = r /\ Forall (fun row => List.length row = c) M.

Definition nonnegative (M : matrix) : Prop :=
  Forall (Forall (fun x => 0 <= x)) M.

Definition symmetric (M : matrix) : Prop :=
  forall i j, Np.get M i j = Np.get M j i.

(** Every entry of the [r] by [c] array [M] is [x]. *)
Definition constant (r c : nat) (M : matrix) (x : R) : Prop :=
  forall i j, (i < r)%nat -> (j < c)%nat -> Np.get M i j = x.

(** Column [j] of the [K]-row array [G] holds one [1] and [1e-16] elsewhere. *)
Definition one_hot_column (K : nat) (G : matrix) (j : nat) : Prop :=
  exists s, (s < K)%nat /\
    forall k, (k < K)%nat -> Np.get G k j = if Nat.eqb k s then 1 else 1e-16.

(** [m] is the first index of the largest entry of [v]. *)
Definition first_max (v : list R) (m : nat) : Prop :=
  (m < List.length v)%nat /\
  (forall k, (k < List.length v)%nat -> nth k v 0 <= nth m v 0) /\
  (forall k, (k < m)%nat -> nth k v 0 < nth m v 0).

(** ** The program *)

Notation "x <- e ;; k" :=
  (match e with inl err => inl err | inr x => k end)
  (at level 61, e at next level, right associativity).

(** [dbmr_likelihood], line 8. *)
Definition dbmr_likelihood (Lambda Gamma Count : matrix) : R :=
  Np.einsum_ij_kj_ik Count Gamma (Np.log (Np.maximum Lambda 1e-16)).

(** What [print] receives at line 58, argument by argument. *)
Inductive print_arg : Type :=
| Str (s : string)
| Float (x : R)
| FormatE (x : R)          (* "(%e)" % x *)
| FormatI (n : Z).         (* "within %i iterations. Stopping." % n *)

Definition stdout := list (list print_arg).

Record state : Type := mkState {
  Lambda : matrix;
  Gamma : matrix;
  lls : list R;
  delta_ll : R
}.

Section Estimator.

Variable C : matrix.
Variable K : nat.
Variable convergence : R.
Variable max_iter : Z.

(** Line 30. *)
Definition N : nat := List.length C.

(** Lines 38-39 and 49-50: the score array, its argmax along axis 0, and the
    [for] loop writing [1] into the array [Gamma0]. *)
Definition score (L : matrix) : matrix :=
  Np.einsum_ij_jk_ki K C (Np.log (Np.maximum L 1e-16)).

Definition assign_loop (Gamma0 : matrix) (am : list nat) : matrix :=
  fold_left (fun G (p : nat * nat) => let (i, s) := p in Np.set_item G s i 1)
            (Np.enumerate am) Gamma0.

Definition hard_assignment (L Gamma0 : matrix) : Np.exn + matrix :=
  am <- Np.argmax_axis0 N (score L) ;;
  inr (assign_loop Gamma0 am).

(** Lines 46-47. *)
Definition Lambda_new_un (G : matrix) : matrix := Np.einsum_ij_kj_ki C G.

Definition update_Lambda (G : matrix) : matrix :=
  Np.transpose N (Np.div_col_vector (Lambda_new_un G) (Np.sum_axis1 (Lambda_new_un G))).

(** Lines 46-56: one pass of the [while] body, up to the [append]. *)
Definition body (s : state) : Np.exn + state :=
  let L := update_Lambda (Gamma s) in
  G <- hard_assignment L (Np.fill (Gamma s) 1e-16) ;;
  let _ll := dbmr_likelihood L G C in
  let d := match lls s with
           | [] => 1
           | _ => Rabs (_ll - last (lls s) 0)
           end in
  inr {| Lambda := L; Gamma := G; lls := lls s ++ [_ll]; delta_ll := d |}.

(** Line 58. *)
Definition diagnostic (d : R) : list print_arg :=
  [ Str "Did not converge to a delta log-likelohood below";
    Float convergence; FormatE d; FormatI max_iter ].

(** Lines 45-59.  [None] means the fuel ran out before the loop stopped. *)
Fixpoint while_loop (fuel : nat) (s : state) : option (Np.exn + state * stdout) :=
  if Rgt_dec (delta_ll s) convergence then
    match fuel with
    | O => None
    | S fuel' =>
        match body s with
        | inl e => Some (inl e)
        | inr s' =>
            if (Z.of_nat (List.length (lls s')) >? max_iter)%Z
            then Some (inr (s', [diagnostic (delta_ll s')]))
            else while_loop fuel' s'
        end
    end
  else Some (inr (s, [])).

(** Lines 33-43: the state on entry to the loop. *)
Definition initial_Lambda (random_sample : matrix) : matrix :=
  Np.div_row_vector random_sample (Np.sum_axis0 K random_sample).

Definition initial_state (random_sample : matrix) : Np.exn + state :=
  let L := initial_Lambda random_sample in
  G <- hard_assignment L (Np.add_scalar (Np.zeros K N) 1e-16) ;;
  inr {| Lambda := L; Gamma := G; lls := []; delta_ll := 1 |}.

(** [estimate_dbmr], lines 11-60; the result is [(Lambda, Gamma, lls)] and
    what was printed. *)
Definition estimate_dbmr (fuel : nat) (random_sample : matrix)
  : option (Np.exn + (matrix * matrix * list R) * stdout) :=
  match initial_state random_sample with
  | inl e => Some (inl e)
  | inr s0 =>
      match while_loop fuel s0 with
      | None => None
      | Some (inl e) => Some (inl e)
      | Some (inr (s, out)) => Some (inr ((Lambda s, Gamma s, lls s), out))
      end
  end.

(** States at which the [while] condition is evaluated, starting from [s0]. *)
Inductive loop_head (s0 : state) : state -> Prop :=
| head_entry : loop_head s0 s0
| head_next : forall s s',
    loop_head s0 s ->
    delta_ll s > convergence ->
    body s = inr s' ->
    (Z.of_nat (List.length (lls s')) <= max_iter)%Z ->
    loop_head s0 s'.

(** [s'] is the state at the end of an executed pass. *)
Definition after_pass (s0 s' : state) : Prop :=
  exists s, loop_head s0 s /\ delta_ll s > convergence /\ body s = inr s'.

(** How the loop started at [s0] stops in [s'] having printed [out]: on the
    [while] condition, with nothing printed, or on the [break] after the
    diagnostic. *)
Inductive stops (s0 s' : state) (out : stdout) : Prop :=
| stops_converged :
    loop_head s0 s' -> ~ delta_ll s' > convergence -> out = [] -> stops s0 s' out
| stops_break :
    after_pass s0 s' -> (Z.of_nat (List.length (lls s')) > max_iter)%Z ->
    out = [diagnostic (delta_ll s')] -> stops s0 s' out.

(** [G] is a K by N array whose columns are all one-hot. *)
Definition assignment (G : matrix) : Prop :=
  shape K N G /\ forall j, (j < N)%nat -> one_hot_column K G j.

(** Column [k] of [L] sums to 1. *)
Definition column_sums_to_one (L : matrix) (k : nat) : Prop :=
  bigsum N (fun i => Np.get L i k) = 1.

(** Entry [k, i] of the unnormalized update, by index. *)
Definition raw (G : matrix) (k i : nat) : R :=
  bigsum N (fun j => Np.get C i j * Np.get G k j).

(** The hard assignment in the spec's words: for observed state [j] the score
    of latent state [k] is the sum over [i] of
    [C[i,j] * log(max(L[i,k], 1e-16))]. *)
Definition score_spec (L : matrix) (j k : nat) : R :=
  bigsum N (fun i => Np.get C i j * ln (Rmax (Np.get L i k) 1e-16)).

Definition hard_assignment_spec (L : matrix) : matrix :=
  map (fun k =>
         map (fun j =>
                if Nat.eqb k (Np.argmax (map (score_spec L j) (seq 0 K)))
                then 1 else 1e-16)
             (seq 0 N))
      (seq 0 K).

(** The score the program computes, by index. *)
Definition score_code (L : matrix) (i k : nat) : R :=
  bigsum N (fun j => Np.get C i j * ln (Rmax (Np.get L j k) 1e-16)).

End Estimator.

(** ** The binary64 reading

    The same program over IEEE 754 binary64 numbers ([float]), for what the
    reals cannot express: division by zero, NaN and infinities.  Arithmetic
    and comparisons are the primitive binary64 operations; [np.maximum]
    returns NaN when an argument is NaN; [np.argmax] takes the first NaN as
    the maximum, as numpy's loop does; [np.log] is a parameter.  numpy does
    not fix the order in which a sum is accumulated: sums here run from
    left to right, starting at 0. *)

Module Binary64.

Definition fmatrix := list (list float).

Definition shape (r c : nat) (M : fmatrix) : Prop :=
  List.length M = r /\ Forall (fun row => List.length row = c) M.

(** The literal [1e-16] of the source: the binary64 number nearest to it. *)
Definition floor : float := 0x1.cd2b297d889bcp-54%float.

Definition sum_list (v : list float) : float := fold_left PrimFloat.add v 0%float.

Definition get (M : fmatrix) (i j : nat) : float := nth j (nth i M []) 0%float.

Definition column (j : nat) (M : fmatrix) : list float :=
  map (fun row => nth j row 0%float) M.

Definition sum_axis0 (ncols : nat) (M : fmatrix) : list float :=
  map (fun j => sum_list (column j M)) (seq 0 ncols).

Definition sum_axis1 (M : fmatrix) : list float := map sum_list M.

Definition transpose (ncols : nat) (M : fmatrix) : fmatrix :=
  map (fun j => column j M) (seq 0 ncols).

Definition div_row_vector (M : fmatrix) (v : list float) : fmatrix :=
  map (fun row => Np.zip_with PrimFloat.div row v) M.

Definition div_col_vector (M : fmatrix) (v : list float) : fmatrix :=
  Np.zip_with (fun row d => map (fun x => (x / d)%float) row) M v.

(** [np.maximum] of two numbers. *)
Definition fmax (x y : float) : float :=
  match (x ?= y)%float with
  | FNotComparable => nan
  | FLt => y
  | _ => x
  end.

Definition maximum (M : fmatrix) (c : float) : fmatrix := map (map (fun x => fmax x c)) M.

Definition zeros (r c : nat) : fmatrix := repeat (repeat 0%float c) r.

Definition add_scalar (M : fmatrix) (c : float) : fmatrix :=
  map (map (fun x => (x + c)%float)) M.

Definition fill (M : fmatrix) (c : float) : fmatrix := map (map (fun _ => c)) M.

Definition set_item (M : fmatrix) (r c : nat) (x : float) : fmatrix :=
  Np.set_nth r (Np.set_nth c x (nth r M [])) M.

Definition dot (u v : list float) : float := sum_list (Np.zip_with PrimFloat.mul u v).

Definition einsum_ij_jk_ki (ncols : nat) (A B : fmatrix) : fmatrix :=
  map (fun k => map (fun Ai => dot Ai (column k B)) A) (seq 0 ncols).

Definition einsum_ij_kj_ki (A B : fmatrix) : fmatrix :=
  map (fun Bk => map (fun Ai => dot Ai Bk) A) B.

Definition einsum_ij_kj_ik (A B L : fmatrix) : float :=
  sum_list (Np.zip_with (fun Ai Li =>
    sum_list (Np.zip_with (fun Bk lik =>
      sum_list (Np.zip_with (fun aij bkj => (aij * bkj * lik)%float) Ai Bk)) B Li)) A L).

(** numpy's argmax loop: the current maximum is replaced when the next
    entry is not [<=] it, and the scan ends at the first NaN. *)
Fixpoint argmax_from (best_i : nat) (best : float) (i : nat) (v : list float) : nat :=
  match v with
  | [] => best_i
  | x :: v' =>
      if (x <=? best)%float then argmax_from best_i best (S i) v'
      else if is_nan x then i
      else argmax_from i x (S i) v'
  end.

Definition argmax (v : list float) : nat :=
  match v with
  | [] => O
  | x :: v' => if is_nan x then O else argmax_from O x 1%nat v'
  end.

Definition argmax_axis0 (ncols : nat) (M : fmatrix) : Np.exn + list nat :=
  match M with
  | [] => inl Np.ValueError
  | _ => inr (map (fun i => argmax (column i M)) (seq 0 ncols))
  end.

(** NaN or an infinity. *)
Definition nonfinite (x : float) : bool := is_nan x || is_infinity x.



Inductive print_arg : Type :=
| Str (s : string)
| Float (x : float)
| FormatE (x : float)
| FormatI (n : Z).

Definition stdout := list (list print_arg).

Record state : Type := mkState {
  Lambda : fmatrix;
  Gamma : fmatrix;
  lls : list float;
  delta_ll : float
}.

Section Estimator.

Variable log : float -> float.
Variable C : fmatrix.
Variable K : nat.
Variable convergence : float.
Variable max_iter : Z.

Definition N : nat := List.length C.

Definition np_log (M : fmatrix) : fmatrix := map (map log) M.

Definition dbmr_likelihood (L G Count : fmatrix) : float :=
  einsum_ij_kj_ik Count G (np_log (maximum L floor)).

Definition score (L : fmatrix) : fmatrix :=
  einsum_ij_jk_ki K C (np_log (maximum L floor)).

Definition assign_loop (Gamma0 : fmatrix) (am : list nat) : fmatrix :=
  fold_left (fun G (p : nat * nat) => let (i, s) := p in set_item G s i 1%float)
            (Np.enumerate am) Gamma0.

Definition hard_assignment (L Gamma0 : fmatrix) : Np.exn + fmatrix :=
  am <- argmax_axis0 N (score L) ;;
  inr (assign_loop Gamma0 am).

Definition Lambda_new_un (G : fmatrix) : fmatrix := einsum_ij_kj_ki C G.

Definition update_Lambda (G : fmatrix) : fmatrix :=
  transpose N (div_col_vector (Lambda_new_un G) (sum_axis1 (Lambda_new_un G))).

Definition body (s : state) : Np.exn + state :=
  let L := update_Lambda (Gamma s) in
  G <- hard_assignment L (fill (Gamma s) floor) ;;
  let _ll := dbmr_likelihood L G C in
  let d := match lls s with
           | [] => 1%float
           | _ => abs (_ll - last (lls s) 0)%float
           end in
  inr {| Lambda := L; Gamma := G; lls := lls s ++ [_ll]; delta_ll := d |}.

Definition diagnostic (d : float) : list print_arg :=
  [ Str "Did not converge to a delta log-likelohood below";
    Float convergence; FormatE d; FormatI max_iter ].

Fixpoint while_loop (fuel : nat) (s : state) : option (Np.exn + state * stdout) :=
  if (convergence <? delta_ll s)%float then
    match fuel with
    | O => None
    | S fuel' =>
        match body s with
        | inl e => Some (inl e)
        | inr s' =>
            if (Z.of_nat (List.length (lls s')) >? max_iter)%Z
            then Some (inr (s', [diagnostic (delta_ll s')]))
            else while_loop fuel' s'
        end
    end
  else Some (inr (s, [])).

Definition initial_Lambda (random_sample : fmatrix) : fmatrix :=
  div_row_vector random_sample (sum_axis0 K random_sample).

Definition initial_state (random_sample : fmatrix) : Np.exn + state :=
  let L := initial_Lambda random_sample in
  G <- hard_assignment L (add_scalar (zeros K N) floor) ;;
  inr {| Lambda := L; Gamma := G; lls := []; delta_ll := 1%float |}.

Definition estimate_dbmr (fuel : nat) (random_sample : fmatrix)
  : option (Np.exn + (fmatrix * fmatrix * list float) * stdout) :=
  match initial_state random_sample with
  | inl e => Some (inl e)
  | inr s0 =>
      match while_loop fuel s0 with
      | None => None
      | Some (inl e) => Some (inl e)
      | Some (inr (s, out)) => Some (inr ((Lambda s, Gamma s, lls s), out))
      end
  end.

End Estimator.

End Binary64.

(** ** Inputs of the examples *)

Module Examples.

(** A single count, from observed state 0 with observed state 1. *)
Definition C_shift : matrix := [[0; 1]; [0; 0]].

(** The spec's two-state scenario. *)
Definition C_diag : matrix := [[10; 0]; [0; 10]].

Definition C_rows : matrix := [[1; 0]; [0; 3]].

(** Draws of [random_sample], 2 by 2 and 2 by 1. *)
Definition draw : matrix := [[1/4; 3/4]; [3/4; 1/4]].

Definition draw_single : matrix := [[1/2]; [1/2]].



End Examples.

(** ** Sums by index *)

Section Bigsum.

Lemma bigsum_0 (f : nat -> R) : bigsum 0 f = 0.
Proof. reflexivity. Qed.

Lemma bigsum_head (n : nat) (f : nat -> R) :
  bigsum (S n) f = f O + bigsum n (fun i => f (S i)).
Proof.
  unfold bigsum. simpl. rewrite <- seq_shift, map_map. reflexivity.
Qed.

Lemma bigsum_last (n : nat) (f : nat -> R) :
  bigsum (S n) f = bigsum n f + f n.
Proof.
  revert f. induction n as [|n IH]; intros f.
  - unfold bigsum. simpl. lra.
  - rewrite bigsum_head, IH, (bigsum_head n f). lra.
Qed.

Lemma bigsum_ext (n : nat) (f g : nat -> R) :
  (forall i, (i < n)%nat -> f i = g i) -> bigsum n f = bigsum n g.
Proof.
  revert f g. induction n as [|n IH]; intros f g H.
  - reflexivity.
  - rewrite !bigsum_head. f_equal.
    + apply H. lia.
    + apply IH. intros i Hi. apply H. lia.
Qed.

Lemma bigsum_const0 (n : nat) : bigsum n (fun _ => 0) = 0.
Proof.
  induction n as [|n IH]; [reflexivity|]. rewrite bigsum_head, IH. lra.
Qed.

Lemma bigsum_plus (n : nat) (f g : nat -> R) :
  bigsum n (fun i => f i + g i) = bigsum n f + bigsum n g.
Proof.
  revert f g. induction n as [|n IH]; intros f g.
  - unfold bigsum. simpl. lra.
  - rewrite !bigsum_head, IH. lra.
Qed.

Lemma bigsum_scal_r (n : nat) (f : nat -> R) (c : R) :
  bigsum n (fun i => f i * c) = bigsum n f * c.
Proof.
  revert f. induction n as [|n IH]; intros f.
  - unfold bigsum. simpl. lra.
  - rewrite !bigsum_head, IH. lra.
Qed.

Lemma bigsum_swap (n m : nat) (f : nat -> nat -> R) :
  bigsum n (fun i => bigsum m (fun j => f i j)) =
  bigsum m (fun j => bigsum n (fun i => f i j)).
Proof.
  revert f. induction n as [|n IH]; intros f.
  - rewrite bigsum_0. symmetry. apply bigsum_const0.
  - rewrite bigsum_head, IH, <- bigsum_plus.
    apply bigsum_ext. intros j _. rewrite bigsum_head. reflexivity.
Qed.

Lemma bigsum_nonneg (n : nat) (f : nat -> R) :
  (forall i, (i < n)%nat -> 0 <= f i) -> 0 <= bigsum n f.
Proof.
  revert f. induction n as [|n IH]; intros f H.
  - rewrite bigsum_0. lra.
  - rewrite bigsum_head.
    assert (0 <= f O) by (apply H; lia).
    assert (0 <= bigsum n (fun i => f (S i))) by (apply IH; intros; apply H; lia).
    lra.
Qed.

Lemma bigsum_le (n : nat) (f g : nat -> R) :
  (forall i, (i < n)%nat -> f i <= g i) -> bigsum n f <= bigsum n g.
Proof.
  revert f g. induction n as [|n IH]; intros f g H.
  - rewrite !bigsum_0. lra.
  - rewrite !bigsum_head.
    assert (f O <= g O) by (apply H; lia).
    assert (bigsum n (fun i => f (S i)) <= bigsum n (fun i => g (S i)))
      by (apply IH; intros; apply H; lia).
    lra.
Qed.

Lemma sum_list_nth (v : list R) :
  Np.sum_list v = bigsum (List.length v) (fun i => nth i v 0).
Proof.
  induction v as [|x v IH]; [reflexivity|].
  simpl List.length. rewrite bigsum_head. simpl. rewrite IH. reflexivity.
Qed.

Lemma sum_list_map {A : Type} (d : A) (f : A -> R) (l : list A) :
  Np.sum_list (map f l) = bigsum (List.length l) (fun i => f (nth i l d)).
Proof.
  induction l as [|x l IH]; [reflexivity|].
  simpl List.length. rewrite bigsum_head. simpl. rewrite IH. reflexivity.
Qed.

Lemma zip_with_length {A B D : Type} (f : A -> B -> D) (u : list A) (v : list B) :
  List.length (Np.zip_with f u v) = Nat.min (List.length u) (List.length v).
Proof.
  revert v. induction u as [|a u IH]; intros [|b v]; simpl; auto.
Qed.

Lemma zip_with_nth {A B D : Type} (f : A -> B -> D) (a : A) (b : B) (d : D)
      (u : list A) (v : list B) (i : nat) :
  (i < List.length u)%nat -> (i < List.length v)%nat ->
  nth i (Np.zip_with f u v) d = f (nth i u a) (nth i v b).
Proof.
  revert v i. induction u as [|x u IH]; intros [|y v] [|i]; simpl; intros Hu Hv;
    try lia; auto.
  apply IH; lia.
Qed.

Lemma sum_list_zip_with {A B : Type} (a : A) (b : B) (f : A -> B -> R)
      (u : list A) (v : list B) (n : nat) :
  List.length u = n -> List.length v = n ->
  Np.sum_list (Np.zip_with f u v) = bigsum n (fun i => f (nth i u a) (nth i v b)).
Proof.
  revert v n. induction u as [|x u IH]; intros [|y v] n Hu Hv; simpl in *; subst;
    try discriminate; [reflexivity|].
  rewrite bigsum_head. simpl. f_equal. apply IH; [reflexivity|lia].
Qed.

Lemma dot_bigsum (u v : list R) (n : nat) :
  List.length u = n -> List.length v = n ->
  Np.dot u v = bigsum n (fun j => nth j u 0 * nth j v 0).
Proof. intros. unfold Np.dot. now apply sum_list_zip_with. Qed.

End Bigsum.

(** ** Entries of the array operations *)

Section Entries.

Lemma nth_map_lt {A B : Type} (f : A -> B) (l : list A) (i : nat) (d : A) (d' : B) :
  (i < List.length l)%nat -> nth i (map f l) d' = f (nth i l d).
Proof.
  intros Hi. rewrite (nth_indep _ d' (f d)) by (now rewrite length_map).
  apply map_nth.
Qed.

Lemma nth_nil_R (j : nat) : nth j (@nil R) 0 = 0.
Proof. destruct j; reflexivity. Qed.

Lemma shape_length (r c : nat) (M : matrix) : shape r c M -> List.length M = r.
Proof. now intros [H _]. Qed.

Lemma shape_row (r c : nat) (M : matrix) (i : nat) :
  shape r c M -> (i < r)%nat -> List.length (nth i M []) = c.
Proof.
  intros [Hl Hf] Hi. rewrite Forall_forall in Hf. apply Hf, nth_In. lia.
Qed.

Lemma column_length (j : nat) (M : matrix) : List.length (Np.column j M) = List.length M.
Proof. apply length_map. Qed.

Lemma column_nth (j i : nat) (M : matrix) : nth i (Np.column j M) 0 = Np.get M i j.
Proof.
  unfold Np.column, Np.get.
  rewrite <- (nth_nil_R j) at 1.
  apply (map_nth (fun row => nth j row 0)).
Qed.

Lemma get_transpose (ncols : nat) (M : matrix) (i j : nat) :
  (j < ncols)%nat -> Np.get (Np.transpose ncols M) j i = Np.get M i j.
Proof.
  intros Hj. unfold Np.get at 1, Np.transpose.
  rewrite (nth_map_lt _ _ _ O) by (now rewrite length_seq).
  rewrite seq_nth by assumption. apply column_nth.
Qed.

Lemma get_div_col_vector (M : matrix) (v : list R) (i j : nat) :
  (i < List.length M)%nat -> (i < List.length v)%nat ->
  Np.get (Np.div_col_vector M v) i j = Np.get M i j / nth i v 0.
Proof.
  intros Hi Hv. unfold Np.get, Np.div_col_vector.
  rewrite (zip_with_nth _ [] 0) by assumption.
  set (d := nth i v 0).
  assert (H0 : 0 = 0 / d) by (unfold Rdiv; ring).
  rewrite H0 at 1.
  apply (map_nth (fun x => x / d)).
Qed.

Lemma get_div_row_vector (M : matrix) (v : list R) (i j : nat) :
  (i < List.length M)%nat -> (j < List.length (nth i M []))%nat ->
  (j < List.length v)%nat ->
  Np.get (Np.div_row_vector M v) i j = Np.get M i j / nth j v 0.
Proof.
  intros Hi Hj Hv. unfold Np.get, Np.div_row_vector.
  rewrite (nth_map_lt _ _ _ []) by assumption.
  now apply zip_with_nth.
Qed.

Lemma get_log_maximum (L : matrix) (c : R) (i k : nat) :
  (i < List.length L)%nat -> (k < List.length (nth i L []))%nat ->
  Np.get (Np.log (Np.maximum L c)) i k = ln (Rmax (Np.get L i k) c).
Proof.
  intros Hi Hk. unfold Np.get, Np.log, Np.maximum.
  rewrite map_map.
  rewrite (nth_map_lt _ _ _ []) by assumption.
  rewrite map_map.
  now rewrite (nth_map_lt _ _ _ 0) by assumption.
Qed.

Lemma shape_log_maximum (r c : nat) (L : matrix) (x : R) :
  shape r c L -> shape r c (Np.log (Np.maximum L x)).
Proof.
  intros [Hl Hf]. split.
  - unfold Np.log, Np.maximum. now rewrite !length_map.
  - unfold Np.log, Np.maximum. rewrite map_map.
    rewrite Forall_map. eapply Forall_impl; [|exact Hf].
    intros row Hrow. cbv beta. now rewrite !length_map.
Qed.

Lemma get_einsum_ij_kj_ki (A B : matrix) (n : nat) (k i : nat) :
  (k < List.length B)%nat -> (i < List.length A)%nat ->
  List.length (nth i A []) = n -> List.length (nth k B []) = n ->
  Np.get (Np.einsum_ij_kj_ki A B) k i =
  bigsum n (fun j => Np.get A i j * Np.get B k j).
Proof.
  intros Hk Hi HA HB. unfold Np.get at 1, Np.einsum_ij_kj_ki.
  rewrite (nth_map_lt _ _ _ []) by assumption.
  rewrite (nth_map_lt _ _ _ []) by assumption.
  now apply dot_bigsum.
Qed.

Lemma shape_einsum_ij_kj_ki (A B : matrix) :
  shape (List.length B) (List.length A) (Np.einsum_ij_kj_ki A B).
Proof.
  split.
  - unfold Np.einsum_ij_kj_ki. apply length_map.
  - unfold Np.einsum_ij_kj_ki. rewrite Forall_map, Forall_forall. intros Bk _.
    apply length_map.
Qed.

Lemma get_einsum_ij_jk_ki (ncols : nat) (A B : matrix) (n : nat) (k i : nat) :
  (k < ncols)%nat -> (i < List.length A)%nat ->
  List.length (nth i A []) = n -> List.length B = n ->
  Np.get (Np.einsum_ij_jk_ki ncols A B) k i =
  bigsum n (fun j => Np.get A i j * Np.get B j k).
Proof.
  intros Hk Hi HA HB. unfold Np.get at 1, Np.einsum_ij_jk_ki.
  rewrite (nth_map_lt _ _ _ O) by (now rewrite length_seq).
  rewrite seq_nth by assumption. simpl.
  rewrite (nth_map_lt _ _ _ []) by assumption.
  rewrite (dot_bigsum _ _ n) by (rewrite ?column_length; assumption).
  apply bigsum_ext. intros j _. now rewrite column_nth.
Qed.

Lemma sum_axis1_nth (M : matrix) (c : nat) (k : nat) :
  (k < List.length M)%nat -> List.length (nth k M []) = c ->
  nth k (Np.sum_axis1 M) 0 = bigsum c (fun i => Np.get M k i).
Proof.
  intros Hk Hc. unfold Np.sum_axis1.
  rewrite (nth_map_lt _ _ _ []) by assumption.
  rewrite sum_list_nth, Hc. reflexivity.
Qed.

Lemma sum_axis0_nth (ncols : nat) (M : matrix) (k : nat) :
  (k < ncols)%nat ->
  nth k (Np.sum_axis0 ncols M) 0 = bigsum (List.length M) (fun i => Np.get M i k).
Proof.
  intros Hk. unfold Np.sum_axis0.
  rewrite (nth_map_lt _ _ _ O) by (now rewrite length_seq).
  rewrite seq_nth by assumption. simpl.
  rewrite sum_list_nth, column_length.
  apply bigsum_ext. intros i _. apply column_nth.
Qed.

End Entries.

(** ** The likelihood and the update of Lambda *)

Section Update.

Variable C : matrix.
Variable K : nat.

Lemma Lambda_new_un_entry (G : matrix) (k i : nat) :
  shape (N C) (N C) C -> shape K (N C) G -> (k < K)%nat -> (i < N C)%nat ->
  Np.get (Lambda_new_un C G) k i =
  bigsum (N C) (fun j => Np.get C i j * Np.get G k j).
Proof.
  intros HC HG Hk Hi. unfold Lambda_new_un.
  apply get_einsum_ij_kj_ki.
  - now rewrite (shape_length _ _ _ HG).
  - exact Hi.
  - now apply (shape_row _ _ _ _ HC).
  - now apply (shape_row _ _ _ _ HG).
Qed.

Lemma update_Lambda_entry (G : matrix) (i k : nat) :
  shape (N C) (N C) C -> shape K (N C) G -> (i < N C)%nat -> (k < K)%nat ->
  Np.get (update_Lambda C G) i k =
  Np.get (Lambda_new_un C G) k i /
  bigsum (N C) (fun i' => Np.get (Lambda_new_un C G) k i').
Proof.
  intros HC HG Hi Hk. unfold update_Lambda.
  rewrite get_transpose by assumption.
  pose proof (shape_einsum_ij_kj_ki C G) as Hraw. fold (Lambda_new_un C G) in Hraw.
  rewrite (shape_length _ _ _ HG) in Hraw. fold (N C) in Hraw.
  rewrite get_div_col_vector.
  - now rewrite (sum_axis1_nth _ (N C)) by
      (rewrite ?(shape_length _ _ _ Hraw); auto; now apply (shape_row _ _ _ _ Hraw)).
  - now rewrite (shape_length _ _ _ Hraw).
  - unfold Np.sum_axis1. now rewrite length_map, (shape_length _ _ _ Hraw).
Qed.

Lemma body_inr (s s' : state) :
  body C K s = inr s' ->
  Lambda s' = update_Lambda C (Gamma s) /\
  hard_assignment C K (Lambda s') (Np.fill (Gamma s) 1e-16) = inr (Gamma s') /\
  lls s' = lls s ++ [dbmr_likelihood (Lambda s') (Gamma s') C] /\
  delta_ll s' = match lls s with
                | [] => 1
                | _ => Rabs (dbmr_likelihood (Lambda s') (Gamma s') C - last (lls s) 0)
                end.
Proof.
  unfold body. intros H.
  destruct (hard_assignment C K (update_Lambda C (Gamma s)) (Np.fill (Gamma s) 1e-16))
    as [e|G] eqn:E; [discriminate|].
  inversion H; subst; clear H. simpl. rewrite E. auto.
Qed.

End Update.

(** C3.  For consistently shaped arrays [Lambda] (N by K), [Gamma] (K by N)
    and [Count] (N by N), [dbmr_likelihood] is the sum over all [i], [j], [k]
    of [Count[i,j] * Gamma[k,j] * log(max(Lambda[i,k], 1e-16))]: every entry
    of [Lambda] is floored at [1e-16] before its logarithm is taken.  The
    function is a map from its three arguments to a number and builds new
    arrays only, so it has no effect on them. *)
Theorem dbmr_likelihood_is_triple_sum (n K : nat) (L G Count : matrix) :
  shape n K L -> shape K n G -> shape n n Count ->
  dbmr_likelihood L G Count =
  bigsum n (fun i => bigsum n (fun j => bigsum K (fun k =>
    Np.get Count i j * Np.get G k j * ln (Rmax (Np.get L i k) 1e-16)))).
Proof.
  intros HL HG HC. unfold dbmr_likelihood, Np.einsum_ij_kj_ik.
  pose proof (shape_log_maximum _ _ _ 1e-16 HL) as HlogL.
  rewrite (sum_list_zip_with [] [] _ _ _ n)
    by (eauto using shape_length).
  apply bigsum_ext. intros i Hi.
  rewrite (sum_list_zip_with [] 0 _ _ _ K)
    by (eauto using shape_length, shape_row).
  rewrite bigsum_swap. apply bigsum_ext. intros k Hk.
  rewrite (sum_list_zip_with 0 0 _ _ _ n)
    by (eauto using shape_row).
  apply bigsum_ext. intros j Hj.
  fold (Np.get Count i j) (Np.get G k j).
  fold (Np.get (Np.log (Np.maximum L 1e-16)) i k).
  rewrite get_log_maximum; [reflexivity| |].
  - now rewrite (shape_length _ _ _ HL).
  - now rewrite (shape_row _ _ _ _ HL).
Qed.

(** ** [np.argmax]: the first index of the maximum *)

Section Argmax.

Lemma argmax_from_first_max (v pre : list R) (best_i : nat) :
  first_max pre best_i ->
  first_max (pre ++ v) (Np.argmax_from best_i (nth best_i pre 0) (List.length pre) v).
Proof.
  revert pre best_i. induction v as [|x v IH]; intros pre bi (Hlt & Hmax & Hfirst).
  - simpl. rewrite app_nil_r. repeat split; assumption.
  - simpl.
    replace (pre ++ x :: v) with ((pre ++ [x]) ++ v) by (now rewrite <- app_assoc).
    assert (Hlen : List.length (pre ++ [x]) = S (List.length pre))
      by (rewrite length_app; simpl; lia).
    assert (Hn : nth (List.length pre) (pre ++ [x]) 0 = x)
      by (rewrite app_nth2, Nat.sub_diag by lia; reflexivity).
    destruct (Rlt_dec (nth bi pre 0) x) as [Hx|Hx].
    + specialize (IH (pre ++ [x]) (List.length pre)).
      rewrite Hn, Hlen in IH. apply IH.
      unfold first_max. rewrite Hn, Hlen.
      repeat split.
      * lia.
      * intros k Hk.
        destruct (Nat.eq_dec k (List.length pre)) as [->|Hne].
        -- rewrite Hn. lra.
        -- rewrite app_nth1 by lia.
           assert (nth k pre 0 <= nth bi pre 0) by (apply Hmax; lia). lra.
      * intros k Hk. rewrite app_nth1 by lia.
        assert (nth k pre 0 <= nth bi pre 0) by (apply Hmax; lia). lra.
    + specialize (IH (pre ++ [x]) bi).
      rewrite (app_nth1 pre [x] 0 Hlt), Hlen in IH. apply IH.
      unfold first_max. rewrite (app_nth1 pre [x] 0 Hlt), Hlen.
      repeat split.
      * lia.
      * intros k Hk.
        destruct (Nat.eq_dec k (List.length pre)) as [->|Hne].
        -- rewrite Hn. lra.
        -- rewrite app_nth1 by lia. apply Hmax. lia.
      * intros k Hk. rewrite app_nth1 by lia. now apply Hfirst.
Qed.

Lemma argmax_first_max (v : list R) :
  v <> [] -> first_max v (Np.argmax v).
Proof.
  destruct v as [|x v]; [congruence|]. intros _.
  unfold Np.argmax.
  apply (argmax_from_first_max v [x] O).
  repeat split; simpl.
  - lia.
  - intros k Hk. assert (k = O) by lia. subst. lra.
  - intros k Hk. lia.
Qed.

Lemma argmax_lt (v : list R) : v <> [] -> (Np.argmax v < List.length v)%nat.
Proof. intros H. apply (argmax_first_max v H). Qed.

End Argmax.

(** ** Item assignment and the assignment loop *)

Section Assignment.

Lemma set_nth_length {A : Type} (n : nat) (x : A) (l : list A) :
  List.length (Np.set_nth n x l) = List.length l.
Proof.
  revert n. induction l as [|h t IH]; intros [|n]; simpl; auto.
Qed.

Lemma nth_set_nth_eq {A : Type} (n : nat) (x d : A) (l : list A) :
  (n < List.length l)%nat -> nth n (Np.set_nth n x l) d = x.
Proof.
  revert n. induction l as [|h t IH]; intros [|n]; simpl; intros H; try lia; auto.
  apply IH. lia.
Qed.

Lemma nth_set_nth_neq {A : Type} (n k : nat) (x d : A) (l : list A) :
  k <> n -> nth k (Np.set_nth n x l) d = nth k l d.
Proof.
  revert n k. induction l as [|h t IH]; intros [|n] [|k]; simpl; intros H;
    try congruence; auto.
Qed.

Lemma set_nth_Forall {A : Type} (P : A -> Prop) (n : nat) (x : A) (l : list A) :
  ((n < List.length l)%nat -> P x) -> Forall P l -> Forall P (Np.set_nth n x l).
Proof.
  revert n. induction l as [|h t IH]; intros [|n] Hx Hl; simpl in *; auto;
    inversion Hl; subst; constructor; auto.
  - apply Hx. lia.
  - apply IH; auto. intros Hn. apply Hx. lia.
Qed.

Lemma shape_set_item (r c : nat) (M : matrix) (s i : nat) (x : R) :
  shape r c M -> shape r c (Np.set_item M s i x).
Proof.
  intros [Hl Hf]. unfold Np.set_item. split.
  - now rewrite set_nth_length.
  - apply set_nth_Forall; [|assumption].
    intros Hs. rewrite set_nth_length.
    rewrite Forall_forall in Hf. apply Hf, nth_In, Hs.
Qed.

Lemma get_set_item (r c : nat) (M : matrix) (s i : nat) (x : R) (k j : nat) :
  shape r c M -> (s < r)%nat -> (i < c)%nat ->
  Np.get (Np.set_item M s i x) k j =
  if Nat.eqb k s && Nat.eqb j i then x else Np.get M k j.
Proof.
  intros HM Hs Hi. unfold Np.get, Np.set_item.
  destruct (Nat.eqb_spec k s) as [->|Hk]; simpl.
  - rewrite nth_set_nth_eq by (now rewrite (shape_length _ _ _ HM)).
    destruct (Nat.eqb_spec j i) as [->|Hj].
    + apply nth_set_nth_eq. now rewrite (shape_row _ _ _ _ HM).
    + now apply nth_set_nth_neq.
  - now rewrite nth_set_nth_neq.
Qed.

Lemma shape_assign_loop_from (r c : nat) (am : list nat) (a : nat) (G : matrix) :
  shape r c G ->
  shape r c (fold_left (fun G (p : nat * nat) => let (i, s) := p in Np.set_item G s i 1)
                       (combine (seq a (List.length am)) am) G).
Proof.
  revert a G. induction am as [|s am IH]; intros a G HG; simpl; [assumption|].
  apply IH. now apply shape_set_item.
Qed.

Lemma get_assign_loop_from (r c : nat) (am : list nat) (a : nat) (G : matrix) (k j : nat) :
  shape r c G -> Forall (fun s => (s < r)%nat) am -> (a + List.length am <= c)%nat ->
  Np.get (fold_left (fun G (p : nat * nat) => let (i, s) := p in Np.set_item G s i 1)
                    (combine (seq a (List.length am)) am) G) k j =
  if Nat.leb a j && Nat.ltb j (a + List.length am) && Nat.eqb k (nth (j - a) am O)
  then 1 else Np.get G k j.
Proof.
  revert a G. induction am as [|s am IH]; intros a G HG Ham Hc; simpl.
  - replace (Nat.ltb j (a + 0)) with (negb (Nat.leb a j)).
    + now destruct (Nat.leb a j).
    + rewrite Nat.add_0_r, Nat.leb_antisym. now rewrite Bool.negb_involutive.
  - inversion Ham as [|s' am' Hs Ham']; subst.
    simpl in Hc.
    rewrite IH by (auto using shape_set_item; lia).
    rewrite (get_set_item r c) by (auto; lia).
    destruct (Nat.leb_spec (S a) j) as [H1|H1].
    + assert (Hja : (j - a = S (j - S a))%nat) by lia. rewrite Hja.
      destruct (Nat.leb_spec a j) as [_|H2]; [|lia].
      replace (Nat.ltb j (a + S (List.length am))) with (Nat.ltb j (S a + List.length am))
        by (f_equal; lia).
      replace (Nat.eqb j a) with false by (symmetry; apply Nat.eqb_neq; lia).
      now rewrite Bool.andb_false_r.
    + simpl. destruct (Nat.eqb_spec j a) as [->|Hne].
      * rewrite Nat.leb_refl, Nat.sub_diag. simpl.
        replace (Nat.ltb a (a + S (List.length am))) with true
          by (symmetry; apply Nat.ltb_lt; lia).
        simpl. now rewrite Bool.andb_true_r.
      * replace (Nat.leb a j) with false by (symmetry; apply Nat.leb_gt; lia).
        simpl. now rewrite Bool.andb_false_r.
Qed.

End Assignment.

(** ** The hard assignment *)

Section HardAssignment.

Variable C : matrix.
Variable K : nat.

Lemma score_length (L : matrix) : List.length (score C K L) = K.
Proof. unfold score, Np.einsum_ij_jk_ki. now rewrite length_map, length_seq. Qed.

Lemma argmax_axis0_score (L : matrix) :
  (0 < K)%nat ->
  Np.argmax_axis0 (N C) (score C K L) =
  inr (map (fun i => Np.argmax (Np.column i (score C K L))) (seq 0 (N C))).
Proof.
  intros HK. unfold Np.argmax_axis0.
  pose proof (score_length L) as Hl.
  destruct (score C K L); [simpl in Hl; lia|reflexivity].
Qed.

Lemma argmax_column_lt (L : matrix) (i : nat) :
  (0 < K)%nat -> (Np.argmax (Np.column i (score C K L)) < K)%nat.
Proof.
  intros HK.
  assert (Hl : List.length (Np.column i (score C K L)) = K)
    by (now rewrite column_length, score_length).
  rewrite <- Hl at 2. apply argmax_lt.
  intros E. rewrite E in Hl. simpl in Hl. lia.
Qed.

(** With at least one latent state the assignment does not raise, keeps the
    shape of the array it writes into, and writes exactly one [1] per column,
    at the argmax of that column of the score array. *)
Lemma hard_assignment_inr (L G0 : matrix) :
  (0 < K)%nat -> shape K (N C) G0 ->
  exists G,
    hard_assignment C K L G0 = inr G /\
    shape K (N C) G /\
    forall k j, (k < K)%nat -> (j < N C)%nat ->
      Np.get G k j =
      if Nat.eqb k (Np.argmax (Np.column j (score C K L))) then 1 else Np.get G0 k j.
Proof.
  intros HK HG0. unfold hard_assignment.
  rewrite argmax_axis0_score by assumption.
  set (am := map (fun i => Np.argmax (Np.column i (score C K L))) (seq 0 (N C))).
  assert (Hlen : List.length am = N C) by (unfold am; now rewrite length_map, length_seq).
  exists (assign_loop G0 am). split; [reflexivity|]. split.
  - unfold assign_loop, Np.enumerate. now apply shape_assign_loop_from.
  - intros k j Hk Hj. unfold assign_loop, Np.enumerate.
    rewrite (get_assign_loop_from K (N C)).
    + rewrite Hlen, Nat.sub_0_r. simpl.
      replace (Nat.ltb j (N C)) with true by (symmetry; now apply Nat.ltb_lt).
      simpl. unfold am.
      rewrite (nth_map_lt _ _ _ O) by (now rewrite length_seq).
      now rewrite seq_nth.
    + assumption.
    + unfold am. rewrite Forall_map, Forall_forall. intros i _.
      now apply argmax_column_lt.
    + lia.
Qed.

Lemma hard_assignment_raises_without_latent_states (L G0 : matrix) :
  K = O -> hard_assignment C K L G0 = inl Np.ValueError.
Proof. intros ->. reflexivity. Qed.

(** The column of the score array for observed state [i], by index: the
    program contracts ROW [i] of [C] with the logarithms. *)
Lemma score_column (L : matrix) (i : nat) :
  shape (N C) (N C) C -> shape (N C) K L -> (i < N C)%nat ->
  Np.column i (score C K L) = map (score_code C L i) (seq 0 K).
Proof.
  intros HC HL Hi. unfold Np.column, score, Np.einsum_ij_jk_ki.
  rewrite map_map. apply map_ext_in. intros k Hk.
  apply in_seq in Hk.
  rewrite (nth_map_lt _ _ _ []) by exact Hi.
  pose proof (shape_log_maximum _ _ _ 1e-16 HL) as HlogL.
  rewrite (dot_bigsum _ _ (N C)).
  - unfold score_code. apply bigsum_ext. intros j Hj.
    rewrite column_nth. fold (Np.get C i j).
    rewrite get_log_maximum; [reflexivity| |].
    + now rewrite (shape_length _ _ _ HL).
    + rewrite (shape_row _ _ _ _ HL) by assumption. lia.
  - now apply (shape_row _ _ _ _ HC).
  - rewrite column_length. now apply (shape_length _ _ _ HlogL).
Qed.

Lemma shape_fill (r c : nat) (G : matrix) (x : R) :
  shape r c G -> shape r c (Np.fill G x).
Proof.
  intros [Hl Hf]. unfold Np.fill. split.
  - now rewrite length_map.
  - rewrite Forall_map. eapply Forall_impl; [|exact Hf].
    intros row Hrow. cbv beta. now rewrite length_map.
Qed.

Lemma get_fill (r c : nat) (G : matrix) (x : R) (k j : nat) :
  shape r c G -> (k < r)%nat -> (j < c)%nat -> Np.get (Np.fill G x) k j = x.
Proof.
  intros HG Hk Hj. unfold Np.get, Np.fill.
  rewrite (nth_map_lt _ _ _ []) by (now rewrite (shape_length _ _ _ HG)).
  now rewrite (nth_map_lt _ _ _ 0) by (now rewrite (shape_row _ _ _ _ HG)).
Qed.

Lemma shape_zeros (r c : nat) : shape r c (Np.zeros r c).
Proof.
  unfold Np.zeros. split.
  - apply repeat_length.
  - apply Forall_forall. intros row Hrow. apply repeat_spec in Hrow. subst.
    apply repeat_length.
Qed.

Lemma shape_add_scalar (r c : nat) (G : matrix) (x : R) :
  shape r c G -> shape r c (Np.add_scalar G x).
Proof.
  intros [Hl Hf]. unfold Np.add_scalar. split.
  - now rewrite length_map.
  - rewrite Forall_map. eapply Forall_impl; [|exact Hf].
    intros row Hrow. cbv beta. now rewrite length_map.
Qed.

Lemma get_floor_array (r c : nat) (k j : nat) :
  (k < r)%nat -> (j < c)%nat ->
  Np.get (Np.add_scalar (Np.zeros r c) 1e-16) k j = 1e-16.
Proof.
  intros Hk Hj. unfold Np.get, Np.add_scalar, Np.zeros.
  rewrite (nth_map_lt _ _ _ []) by (now rewrite repeat_length).
  rewrite (nth_repeat_lt _ _ Hk).
  rewrite (nth_map_lt _ _ _ 0) by (now rewrite repeat_length).
  rewrite (nth_repeat_lt _ _ Hj). lra.
Qed.

(** Writing the assignment into an array that holds [1e-16] everywhere
    leaves every column one-hot. *)
Lemma hard_assignment_one_hot (L G0 : matrix) :
  (0 < K)%nat -> shape K (N C) G0 ->
  (forall k j, (k < K)%nat -> (j < N C)%nat -> Np.get G0 k j = 1e-16) ->
  exists G,
    hard_assignment C K L G0 = inr G /\
    shape K (N C) G /\
    forall j, (j < N C)%nat -> one_hot_column K G j.
Proof.
  intros HK HG0 Hfloor.
  destruct (hard_assignment_inr L G0 HK HG0) as (G & HG & Hshape & Hget).
  exists G. split; [assumption|]. split; [assumption|].
  intros j Hj. exists (Np.argmax (Np.column j (score C K L))). split.
  - now apply argmax_column_lt.
  - intros k Hk. rewrite Hget by assumption.
    destruct (Nat.eqb k _); [reflexivity|]. now apply Hfloor.
Qed.

(** A one-hot column has exactly one entry equal to 1. *)
Lemma one_hot_column_exactly_one (G : matrix) (j : nat) :
  one_hot_column K G j ->
  exists s, (s < K)%nat /\ Np.get G s j = 1 /\
    forall k, (k < K)%nat -> Np.get G k j = 1 -> k = s.
Proof.
  intros (s & Hs & Hget). exists s. split; [assumption|]. split.
  - rewrite (Hget s Hs), Nat.eqb_refl. reflexivity.
  - intros k Hk H1. rewrite (Hget k Hk) in H1.
    destruct (Nat.eqb_spec k s) as [E|_]; [assumption|lra].
Qed.

End HardAssignment.

(** ** The loop *)

Section Loop.

Variable C : matrix.
Variable K : nat.
Variable convergence : R.
Variable max_iter : Z.

Lemma initial_state_inr (random_sample : matrix) :
  (0 < K)%nat ->
  exists s0,
    initial_state C K random_sample = inr s0 /\
    Lambda s0 = initial_Lambda K random_sample /\
    assignment C K (Gamma s0) /\ lls s0 = [] /\ delta_ll s0 = 1.
Proof.
  intros HK. unfold initial_state.
  assert (Hs : shape K (N C) (Np.add_scalar (Np.zeros K (N C)) 1e-16))
    by apply shape_add_scalar, shape_zeros.
  assert (Hf : forall k j, (k < K)%nat -> (j < N C)%nat ->
                 Np.get (Np.add_scalar (Np.zeros K (N C)) 1e-16) k j = 1e-16)
    by (intros; now apply get_floor_array).
  destruct (hard_assignment_one_hot C K (initial_Lambda K random_sample) _ HK Hs Hf)
    as (G & HG & Hshape & Hone).
  rewrite HG. eexists. split; [reflexivity|]. simpl.
  split; [reflexivity|]. split; [now split|]. auto.
Qed.

Lemma initial_state_latent (random_sample : matrix) (s0 : state) :
  initial_state C K random_sample = inr s0 -> (0 < K)%nat.
Proof.
  intros H. destruct K as [|K']; [|lia].
  unfold initial_state in H.
  now rewrite hard_assignment_raises_without_latent_states in H.
Qed.

Lemma initial_state_fields (random_sample : matrix) (s0 : state) :
  initial_state C K random_sample = inr s0 ->
  Lambda s0 = initial_Lambda K random_sample /\
  assignment C K (Gamma s0) /\ lls s0 = [] /\ delta_ll s0 = 1.
Proof.
  intros H. pose proof (initial_state_latent _ _ H) as HK.
  destruct (initial_state_inr random_sample HK) as (s & Hs & Hrest).
  rewrite H in Hs. inversion Hs; subst. exact Hrest.
Qed.

Lemma body_total (s : state) :
  (0 < K)%nat -> shape K (N C) (Gamma s) ->
  exists s', body C K s = inr s' /\ assignment C K (Gamma s').
Proof.
  intros HK HG. unfold body.
  assert (Hs : shape K (N C) (Np.fill (Gamma s) 1e-16)) by now apply shape_fill.
  assert (Hf : forall k j, (k < K)%nat -> (j < N C)%nat ->
                 Np.get (Np.fill (Gamma s) 1e-16) k j = 1e-16)
    by (intros; now apply (get_fill K (N C))).
  destruct (hard_assignment_one_hot C K (update_Lambda C (Gamma s)) _ HK Hs Hf)
    as (G & HGe & Hshape & Hone).
  rewrite HGe. eexists. split; [reflexivity|]. simpl. now split.
Qed.

Lemma body_assignment (s s' : state) :
  (0 < K)%nat -> shape K (N C) (Gamma s) -> body C K s = inr s' ->
  assignment C K (Gamma s').
Proof.
  intros HK HG H. destruct (body_total s HK HG) as (s1 & H1 & Ha).
  rewrite H in H1. inversion H1; subst. exact Ha.
Qed.

Lemma body_appends (s s' : state) :
  body C K s = inr s' -> exists ll, lls s' = lls s ++ [ll].
Proof.
  intros H. apply body_inr in H. destruct H as (_ & _ & Hl & _). eauto.
Qed.

Lemma body_length (s s' : state) :
  body C K s = inr s' -> List.length (lls s') = S (List.length (lls s)).
Proof.
  intros H. destruct (body_appends _ _ H) as (ll & ->).
  rewrite length_app. simpl. lia.
Qed.

Lemma loop_head_assignment (s0 s : state) :
  (0 < K)%nat -> assignment C K (Gamma s0) ->
  loop_head C K convergence max_iter s0 s -> assignment C K (Gamma s).
Proof.
  intros HK H0 H. induction H as [|s s' Hh IH Hd Hb Hl]; [assumption|].
  eapply body_assignment; eauto. apply IH.
Qed.

Lemma loop_head_cases (s0 s : state) :
  loop_head C K convergence max_iter s0 s ->
  s = s0 \/
  (after_pass C K convergence max_iter s0 s /\
   (Z.of_nat (List.length (lls s)) <= max_iter)%Z).
Proof.
  intros H. destruct H as [|s s' Hh Hd Hb Hl]; [now left|].
  right. split; [|assumption]. exists s. auto.
Qed.

Lemma after_pass_assignment (s0 s' : state) :
  (0 < K)%nat -> assignment C K (Gamma s0) ->
  after_pass C K convergence max_iter s0 s' -> assignment C K (Gamma s').
Proof.
  intros HK H0 (s & Hh & Hd & Hb).
  eapply body_assignment; eauto. eapply loop_head_assignment; eauto.
Qed.

Lemma while_loop_stops (s0 : state) (fuel : nat) (s s' : state) (out : stdout) :
  loop_head C K convergence max_iter s0 s ->
  while_loop C K convergence max_iter fuel s = Some (inr (s', out)) ->
  stops C K convergence max_iter s0 s' out.
Proof.
  revert s. induction fuel as [|fuel IH]; intros s Hh H; simpl in H.
  - destruct (Rgt_dec (delta_ll s) convergence) as [Hd|Hd]; [discriminate|].
    inversion H; subst. now apply stops_converged.
  - destruct (Rgt_dec (delta_ll s) convergence) as [Hd|Hd].
    + destruct (body C K s) as [e|s1] eqn:Hb; [discriminate|].
      destruct (Z.gtb_spec (Z.of_nat (List.length (lls s1))) max_iter) as [Hg|Hg].
      * inversion H; subst. apply stops_break; auto; [|lia].
        exists s. auto.
      * apply (IH s1); [|assumption].
        eapply head_next; eauto.
    + inversion H; subst. now apply stops_converged.
Qed.

Lemma while_loop_terminates (fuel : nat) (s : state) :
  (0 < K)%nat -> shape K (N C) (Gamma s) -> (0 < fuel)%nat ->
  (Z.of_nat (List.length (lls s)) + Z.of_nat fuel > max_iter)%Z ->
  exists s' out, while_loop C K convergence max_iter fuel s = Some (inr (s', out)).
Proof.
  intros HK. revert s. induction fuel as [|fuel IH]; intros s HG Hf Hm; [lia|].
  simpl. destruct (Rgt_dec (delta_ll s) convergence) as [Hd|Hd]; [|eauto].
  destruct (body_total s HK HG) as (s1 & Hb & [Hs1 _]). rewrite Hb.
  destruct (Z.gtb_spec (Z.of_nat (List.length (lls s1))) max_iter) as [Hg|Hg]; [eauto|].
  pose proof (body_length _ _ Hb) as Hl.
  apply IH; [assumption|lia|lia].
Qed.

(** The loop that stops in [s'] ran exactly [n] passes, one per value
    appended to [lls]: [n] units of fuel are enough and fewer are not. *)
Lemma while_loop_passes (fuel : nat) (s s' : state) (out : stdout) :
  while_loop C K convergence max_iter fuel s = Some (inr (s', out)) ->
  exists n,
    List.length (lls s') = (List.length (lls s) + n)%nat /\
    (n <= fuel)%nat /\
    (forall f, (n <= f)%nat ->
       while_loop C K convergence max_iter f s = Some (inr (s', out))) /\
    (forall f, (f < n)%nat -> while_loop C K convergence max_iter f s = None).
Proof.
  revert s. induction fuel as [|fuel IH]; intros s H.
  - simpl in H. destruct (Rgt_dec (delta_ll s) convergence) as [Hd|Hd] eqn:E;
      [discriminate|].
    inversion H; subst. exists O. repeat split; try lia.
    intros f _. destruct f; simpl; now rewrite E.
  - simpl in H. destruct (Rgt_dec (delta_ll s) convergence) as [Hd|Hd] eqn:E.
    + destruct (body C K s) as [e|s1] eqn:Hb; [discriminate|].
      pose proof (body_length _ _ Hb) as Hl.
      destruct (Z.of_nat (List.length (lls s1)) >? max_iter)%Z eqn:Hg.
      * inversion H; subst. exists 1%nat. repeat split; try lia.
        -- intros f Hf. destruct f; [lia|]. simpl. now rewrite E, Hb, Hg.
        -- intros f Hf. assert (f = O) by lia. subst. simpl. now rewrite E.
      * destruct (IH s1 H) as (n & Hn & Hle & Hge & Hlt).
        exists (S n). repeat split; try lia.
        -- intros f Hf. destruct f; [lia|]. simpl. rewrite E, Hb, Hg.
           apply Hge. lia.
        -- intros f Hf. destruct f; simpl; rewrite E; [reflexivity|].
           rewrite Hb, Hg. apply Hlt. lia.
    + inversion H; subst. exists O. repeat split; try lia.
      intros f _. destruct f; simpl; now rewrite E.
Qed.

Lemma loop_head_length (s0 s : state) :
  lls s0 = [] -> loop_head C K convergence max_iter s0 s ->
  (Z.of_nat (List.length (lls s)) <= Z.max 0 max_iter)%Z.
Proof.
  intros H0 H. destruct (loop_head_cases _ _ H) as [->|[_ Hl]].
  - rewrite H0. simpl. lia.
  - lia.
Qed.

Lemma stops_length (s0 s' : state) (out : stdout) :
  lls s0 = [] -> stops C K convergence max_iter s0 s' out ->
  (Z.of_nat (List.length (lls s')) <= Z.max 1 (max_iter + 1))%Z.
Proof.
  intros H0 [Hh _ _|(s & Hh & Hd & Hb) _ _].
  - pose proof (loop_head_length _ _ H0 Hh). lia.
  - pose proof (loop_head_length _ _ H0 Hh).
    rewrite (body_length _ _ Hb). lia.
Qed.

(** With at least one latent state the call returns: it does not raise, and
    the loop stops after [n] passes, where [n] is the length of the returned
    trace and at most [max(1, max_iter + 1)]. *)
Lemma estimate_dbmr_returns (random_sample : matrix) :
  (0 < K)%nat ->
  exists s0 s' out,
    initial_state C K random_sample = inr s0 /\
    stops C K convergence max_iter s0 s' out /\
    (Z.of_nat (List.length (lls s')) <= Z.max 1 (max_iter + 1))%Z /\
    (forall fuel, (List.length (lls s') <= fuel)%nat ->
       while_loop C K convergence max_iter fuel s0 = Some (inr (s', out)) /\
       estimate_dbmr C K convergence max_iter fuel random_sample =
       Some (inr ((Lambda s', Gamma s', lls s'), out))) /\
    (forall fuel, (fuel < List.length (lls s'))%nat ->
       while_loop C K convergence max_iter fuel s0 = None).
Proof.
  intros HK.
  destruct (initial_state_inr random_sample HK) as (s0 & Hs0 & HL & [HG Hone] & Hl & Hd).
  destruct (while_loop_terminates (S (Z.to_nat max_iter)) s0 HK HG) as (s' & out & Hw);
    [lia|rewrite Hl; simpl; lia|].
  destruct (while_loop_passes _ _ _ _ Hw) as (n & Hn & Hle & Hge & Hlt).
  rewrite Hl in Hn. simpl in Hn.
  assert (Hst : stops C K convergence max_iter s0 s' out)
    by (eapply while_loop_stops; [apply head_entry|exact Hw]).
  exists s0, s', out. split; [assumption|]. split; [assumption|].
  split; [now apply (stops_length s0 s' out)|]. rewrite Hn. split.
  - intros fuel Hf. split; [now apply Hge|].
    unfold estimate_dbmr. rewrite Hs0, (Hge fuel Hf). reflexivity.
  - assumption.
Qed.

End Loop.

(** ** Termination, the trace and the diagnostic *)

Section Termination.

Variable C : matrix.
Variable K : nat.
Variable convergence : R.
Variable max_iter : Z.

Lemma after_pass_nonempty (s0 s' : state) :
  after_pass C K convergence max_iter s0 s' -> lls s' <> [].
Proof.
  intros (s & _ & _ & Hb). apply body_length in Hb.
  intros E. rewrite E in Hb. simpl in Hb. lia.
Qed.

Lemma stops_after_pass (s0 s' : state) (out : stdout) :
  delta_ll s0 > convergence ->
  stops C K convergence max_iter s0 s' out ->
  after_pass C K convergence max_iter s0 s'.
Proof.
  intros Hd [Hh Hn _|Ha _ _]; [|assumption].
  destruct (loop_head_cases _ _ _ _ _ _ Hh) as [->|[Ha _]]; [contradiction|assumption].
Qed.

(** When the threshold is at least the initial [delta_ll = 1], the [while]
    condition fails on entry: no pass runs, nothing is recorded or printed. *)
Lemma estimate_dbmr_skips_loop (fuel : nat) (random_sample : matrix) (s0 : state) :
  1 <= convergence ->
  initial_state C K random_sample = inr s0 ->
  estimate_dbmr C K convergence max_iter fuel random_sample =
  Some (inr ((initial_Lambda K random_sample, Gamma s0, []), [])).
Proof.
  intros Hc H0. unfold estimate_dbmr. rewrite H0.
  destruct (initial_state_fields _ _ _ _ H0) as (HL & _ & Hl & Hd).
  assert (Hw : while_loop C K convergence max_iter fuel s0 = Some (inr (s0, []))).
  { destruct fuel; simpl; destruct (Rgt_dec (delta_ll s0) convergence) as [Hg|Hg];
      try reflexivity; rewrite Hd in Hg; lra. }
  rewrite Hw, HL, Hl. reflexivity.
Qed.

Lemma loop_head_reach (s0 s : state) :
  loop_head C K convergence max_iter s0 s ->
  forall f r, while_loop C K convergence max_iter f s = Some r ->
  exists f0, while_loop C K convergence max_iter f0 s0 = Some r.
Proof.
  induction 1 as [|s s' Hh IH Hd Hb Hl]; intros f r Hw; [eauto|].
  apply (IH (S f) r). simpl.
  destruct (Rgt_dec (delta_ll s) convergence) as [_|Hn]; [|contradiction].
  rewrite Hb.
  destruct (Z.gtb_spec (Z.of_nat (List.length (lls s'))) max_iter); [lia|assumption].
Qed.

End Termination.

(** C9.  For a valid input with [max_iter >= 1] the estimation loop
    terminates.  Each pass of the body appends exactly one value to [lls];
    the loop runs a number [n] of passes that is at most [max_iter + 1]
    ([n] units of fuel make it stop, fewer do not), and [n] is the length of
    [lls] when it stops. *)
Theorem estimation_loop_terminates
    (C : matrix) (K : nat) (convergence : R) (max_iter : Z) (random_sample : matrix) :
  (1 <= K)%nat -> (1 <= max_iter)%Z ->
  exists s0 n,
    initial_state C K random_sample = inr s0 /\
    (Z.of_nat n <= max_iter + 1)%Z /\
    (forall fuel, (n <= fuel)%nat ->
       exists s' out,
         while_loop C K convergence max_iter fuel s0 = Some (inr (s', out)) /\
         List.length (lls s') = n) /\
    (forall fuel, (fuel < n)%nat ->
       while_loop C K convergence max_iter fuel s0 = None) /\
    (forall s s', body C K s = inr s' -> exists ll, lls s' = lls s ++ [ll]).
Proof.
  intros HK Hm.
  destruct (estimate_dbmr_returns C K convergence max_iter random_sample HK)
    as (s0 & s' & out & H0 & Hst & Hlen & Hge & Hlt).
  exists s0, (List.length (lls s')). split; [assumption|]. split; [lia|].
  split; [|split].
  - intros fuel Hf. exists s', out. split; [apply (Hge fuel Hf)|reflexivity].
  - assumption.
  - intros s s1. apply body_appends.
Qed.

(** Below the initial [delta_ll = 1]: for [K >= 1], [max_iter >= 1] and a
    threshold [convergence < 1], the call returns a trace [lls] that is
    non-empty and has length at most [max_iter + 1]. *)
Theorem lls_nonempty_and_bounded
    (C : matrix) (K : nat) (convergence : R) (max_iter : Z) (random_sample : matrix) :
  (1 <= K)%nat -> (1 <= max_iter)%Z -> convergence < 1 ->
  forall fuel, (max_iter + 1 <= Z.of_nat fuel)%Z ->
  exists L G ll out,
    estimate_dbmr C K convergence max_iter fuel random_sample =
    Some (inr ((L, G, ll), out)) /\
    ll <> [] /\ (Z.of_nat (List.length ll) <= max_iter + 1)%Z.
Proof.
  intros HK Hm Hc fuel Hf.
  destruct (estimate_dbmr_returns C K convergence max_iter random_sample HK)
    as (s0 & s' & out & H0 & Hst & Hlen & Hge & _).
  exists (Lambda s'), (Gamma s'), (lls s'), out.
  split; [apply Hge; lia|]. split; [|lia].
  destruct (initial_state_fields _ _ _ _ H0) as (_ & _ & _ & Hd).
  eapply after_pass_nonempty, stops_after_pass; [|exact Hst].
  rewrite Hd. lra.
Qed.

(** C8.  When a pass ends with more recorded likelihoods than [max_iter],
    the call does not raise: it prints one diagnostic carrying the
    threshold, the delta of that pass and [max_iter], stops, and returns
    the current [(Lambda, Gamma, lls)]. *)
Theorem nonconvergence_is_reported_and_returned
    (C : matrix) (K : nat) (convergence : R) (max_iter : Z) (random_sample : matrix)
    (s0 s s' : state) :
  initial_state C K random_sample = inr s0 ->
  loop_head C K convergence max_iter s0 s ->
  delta_ll s > convergence ->
  body C K s = inr s' ->
  (Z.of_nat (List.length (lls s')) > max_iter)%Z ->
  forall fuel, (List.length (lls s') <= fuel)%nat ->
  estimate_dbmr C K convergence max_iter fuel random_sample =
  Some (inr ((Lambda s', Gamma s', lls s'),
             [[ Str "Did not converge to a delta log-likelohood below";
                Float convergence; FormatE (delta_ll s'); FormatI max_iter ]])).
Proof.
  intros H0 Hh Hd Hb Hg fuel Hf.
  assert (Hw : while_loop C K convergence max_iter 1 s =
               Some (inr (s', [diagnostic convergence max_iter (delta_ll s')]))).
  { simpl. destruct (Rgt_dec (delta_ll s) convergence) as [_|Hn]; [|contradiction].
    rewrite Hb.
    destruct (Z.gtb_spec (Z.of_nat (List.length (lls s'))) max_iter); [reflexivity|lia]. }
  destruct (loop_head_reach _ _ _ _ _ _ Hh _ _ Hw) as (f0 & Hw0).
  destruct (while_loop_passes _ _ _ _ _ _ _ _ Hw0) as (n & Hn & _ & Hge & _).
  destruct (initial_state_fields _ _ _ _ H0) as (_ & _ & Hl & _).
  rewrite Hl in Hn. simpl in Hn.
  unfold estimate_dbmr. rewrite H0, (Hge fuel) by lia. reflexivity.
Qed.

(** C5.  After the initialization of [Gamma] and after the recomputation in
    every pass, every column of [Gamma] holds exactly one entry equal to 1
    and [1e-16] in all other entries; the call returns, and the returned
    [Gamma] is of that form. *)
Theorem Gamma_columns_are_one_hot
    (C : matrix) (K : nat) (convergence : R) (max_iter : Z) (random_sample : matrix) :
  (1 <= K)%nat ->
  exists s0,
    initial_state C K random_sample = inr s0 /\
    (forall j, (j < N C)%nat -> one_hot_column K (Gamma s0) j) /\
    (forall s', after_pass C K convergence max_iter s0 s' ->
       forall j, (j < N C)%nat -> one_hot_column K (Gamma s') j) /\
    (forall fuel, (Z.max 1 (max_iter + 1) <= Z.of_nat fuel)%Z ->
       exists L G ll out,
         estimate_dbmr C K convergence max_iter fuel random_sample =
         Some (inr ((L, G, ll), out)) /\
         forall j, (j < N C)%nat -> one_hot_column K G j).
Proof.
  intros HK.
  destruct (estimate_dbmr_returns C K convergence max_iter random_sample HK)
    as (s0 & s' & out & H0 & Hst & Hlen & Hge & _).
  destruct (initial_state_fields _ _ _ _ H0) as (_ & Ha0 & _ & _).
  exists s0. split; [assumption|]. split; [apply Ha0|]. split.
  - intros s1 Hs1. eapply after_pass_assignment; eauto.
  - intros fuel Hf. exists (Lambda s'), (Gamma s'), (lls s'), out.
    split; [apply Hge; lia|].
    destruct Hst as [Hh _ _|Ha _ _].
    + eapply loop_head_assignment; eauto.
    + eapply after_pass_assignment; eauto.
Qed.

(** ** Normalization *)

Section Normalization.

Variable C : matrix.
Variable K : nat.

Lemma bigsum_div (n : nat) (f : nat -> R) (d : R) :
  d <> 0 -> bigsum n (fun i => f i / d) = bigsum n f / d.
Proof. intros _. unfold Rdiv. apply bigsum_scal_r. Qed.

Lemma initial_Lambda_entry (random_sample : matrix) (i k : nat) :
  shape (N C) K random_sample -> (i < N C)%nat -> (k < K)%nat ->
  Np.get (initial_Lambda K random_sample) i k =
  Np.get random_sample i k / nth k (Np.sum_axis0 K random_sample) 0.
Proof.
  intros Hs Hi Hk. unfold initial_Lambda. apply get_div_row_vector.
  - now rewrite (shape_length _ _ _ Hs).
  - now rewrite (shape_row _ _ _ _ Hs).
  - unfold Np.sum_axis0. now rewrite length_map, length_seq.
Qed.

Lemma initial_Lambda_column (random_sample : matrix) (k : nat) :
  shape (N C) K random_sample -> (k < K)%nat ->
  nth k (Np.sum_axis0 K random_sample) 0 <> 0 ->
  column_sums_to_one C (initial_Lambda K random_sample) k.
Proof.
  intros Hs Hk Hd. unfold column_sums_to_one.
  rewrite (bigsum_ext _ _ (fun i => Np.get random_sample i k /
                                    nth k (Np.sum_axis0 K random_sample) 0))
    by (intros i Hi; now apply initial_Lambda_entry).
  rewrite bigsum_div by assumption.
  rewrite sum_axis0_nth in * by assumption.
  rewrite (shape_length _ _ _ Hs) in *. now apply Rdiv_diag.
Qed.

Lemma sum_axis1_Lambda_new_un (G : matrix) (k : nat) :
  shape K (N C) G -> (k < K)%nat ->
  nth k (Np.sum_axis1 (Lambda_new_un C G)) 0 =
  bigsum (N C) (fun i => Np.get (Lambda_new_un C G) k i).
Proof.
  intros HG Hk.
  pose proof (shape_einsum_ij_kj_ki C G) as Hraw. fold (Lambda_new_un C G) in Hraw.
  rewrite (shape_length _ _ _ HG) in Hraw. fold (N C) in Hraw.
  apply sum_axis1_nth.
  - now rewrite (shape_length _ _ _ Hraw).
  - now apply (shape_row _ _ _ _ Hraw).
Qed.

Lemma update_Lambda_column (G : matrix) (k : nat) :
  shape (N C) (N C) C -> shape K (N C) G -> (k < K)%nat ->
  nth k (Np.sum_axis1 (Lambda_new_un C G)) 0 <> 0 ->
  column_sums_to_one C (update_Lambda C G) k.
Proof.
  intros HC HG Hk Hd. unfold column_sums_to_one.
  rewrite sum_axis1_Lambda_new_un in Hd by assumption.
  rewrite (bigsum_ext _ _ (fun i => Np.get (Lambda_new_un C G) k i /
      bigsum (N C) (fun i' => Np.get (Lambda_new_un C G) k i')))
    by (intros i Hi; now apply (update_Lambda_entry C K)).
  rewrite bigsum_div by assumption. now apply Rdiv_diag.
Qed.

Lemma Forall_nth_lt (P : R -> Prop) (v : list R) (k : nat) :
  Forall P v -> (k < List.length v)%nat -> P (nth k v 0).
Proof. intros H Hk. rewrite Forall_forall in H. now apply H, nth_In. Qed.

End Normalization.

Section Denominators.

Variable C : matrix.
Variable K : nat.

Lemma nonnegative_get (i j : nat) : nonnegative C -> 0 <= Np.get C i j.
Proof.
  intros H. unfold Np.get.
  destruct (Nat.lt_ge_cases i (List.length C)) as [Hi|Hi].
  - assert (Hrow : Forall (fun x => 0 <= x) (nth i C [])).
    { unfold nonnegative in H. rewrite Forall_forall in H. now apply H, nth_In. }
    destruct (Nat.lt_ge_cases j (List.length (nth i C []))) as [Hj|Hj].
    + rewrite Forall_forall in Hrow. now apply Hrow, nth_In.
    + rewrite nth_overflow by assumption. lra.
  - rewrite (nth_overflow C) by assumption. rewrite nth_nil_R. lra.
Qed.

Lemma one_hot_entry_ge (G : matrix) (k j : nat) :
  assignment C K G -> (k < K)%nat -> (j < N C)%nat -> 1e-16 <= Np.get G k j.
Proof.
  intros [_ H] Hk Hj. destruct (H j Hj) as (s & _ & Hs).
  rewrite (Hs k Hk). destruct (Nat.eqb k s); lra.
Qed.

(** For nonnegative counts that are not all zero, no denominator of a pass
    is zero: every row of the unnormalized update sums to at least
    [1e-16] times the total count. *)
Lemma pass_denominators_nonzero (G : matrix) :
  shape (N C) (N C) C -> nonnegative C ->
  0 < bigsum (N C) (fun i => bigsum (N C) (fun j => Np.get C i j)) ->
  assignment C K G ->
  Forall (fun d => d <> 0) (Np.sum_axis1 (Lambda_new_un C G)).
Proof.
  intros HC Hnn Htot HG.
  assert (Hlen : List.length (Np.sum_axis1 (Lambda_new_un C G)) = K).
  { unfold Np.sum_axis1, Lambda_new_un, Np.einsum_ij_kj_ki.
    rewrite !length_map. apply (shape_length _ _ _ (proj1 HG)). }
  apply Forall_nth. intros k d Hk. rewrite Hlen in Hk.
  rewrite (nth_indep _ d 0) by (now rewrite Hlen).
  rewrite (sum_axis1_Lambda_new_un C K) by (auto; apply HG).
  assert (Hle : bigsum (N C) (fun i => bigsum (N C) (fun j => Np.get C i j)) * 1e-16 <=
                bigsum (N C) (fun i => Np.get (Lambda_new_un C G) k i)).
  { rewrite <- bigsum_scal_r. apply bigsum_le. intros i Hi.
    rewrite (Lambda_new_un_entry C K) by (auto; apply HG).
    rewrite <- bigsum_scal_r. apply bigsum_le. intros j Hj.
    apply Rmult_le_compat_l; [now apply nonnegative_get|].
    now apply one_hot_entry_ge. }
  assert (0 < bigsum (N C) (fun i => bigsum (N C) (fun j => Np.get C i j)) * 1e-16)
    by (apply Rmult_lt_0_compat; lra).
  lra.
Qed.

End Denominators.

(** C4.  For a valid input in which no normalization denominator is zero
    (neither a column sum of the random draw nor, in any pass that runs, a
    row sum of the unnormalized update), every column of [Lambda] sums to 1
    after the initialization and at the end of every pass; the call returns,
    and every column of the returned [Lambda] sums to 1. *)
Theorem Lambda_columns_sum_to_one
    (C : matrix) (K : nat) (convergence : R) (max_iter : Z) (random_sample : matrix) :
  (1 <= K)%nat -> shape (N C) (N C) C -> shape (N C) K random_sample ->
  Forall (fun d => d <> 0) (Np.sum_axis0 K random_sample) ->
  (forall s0 s,
     initial_state C K random_sample = inr s0 ->
     loop_head C K convergence max_iter s0 s -> delta_ll s > convergence ->
     Forall (fun d => d <> 0) (Np.sum_axis1 (Lambda_new_un C (Gamma s)))) ->
  exists s0,
    initial_state C K random_sample = inr s0 /\
    (forall k, (k < K)%nat -> column_sums_to_one C (Lambda s0) k) /\
    (forall s', after_pass C K convergence max_iter s0 s' ->
       forall k, (k < K)%nat -> column_sums_to_one C (Lambda s') k) /\
    (forall fuel, (Z.max 1 (max_iter + 1) <= Z.of_nat fuel)%Z ->
       exists L G ll out,
         estimate_dbmr C K convergence max_iter fuel random_sample =
         Some (inr ((L, G, ll), out)) /\
         forall k, (k < K)%nat -> column_sums_to_one C L k).
Proof.
  intros HK HC Hsample Hinit Hloop.
  destruct (estimate_dbmr_returns C K convergence max_iter random_sample HK)
    as (s0 & s' & out & H0 & Hst & Hlen & Hge & _).
  destruct (initial_state_fields _ _ _ _ H0) as (HL0 & Ha0 & _ & _).
  assert (Hfirst : forall k, (k < K)%nat -> column_sums_to_one C (Lambda s0) k).
  { intros k Hk. rewrite HL0. apply initial_Lambda_column; auto.
    apply Forall_nth_lt; [assumption|].
    unfold Np.sum_axis0. now rewrite length_map, length_seq. }
  assert (Hpass : forall s1, after_pass C K convergence max_iter s0 s1 ->
                  forall k, (k < K)%nat -> column_sums_to_one C (Lambda s1) k).
  { intros s1 (s & Hh & Hd & Hb) k Hk.
    destruct (body_inr _ _ _ _ Hb) as (-> & _).
    assert (HG : shape K (N C) (Gamma s))
      by (eapply loop_head_assignment; eauto).
    apply (update_Lambda_column C K); auto.
    apply Forall_nth_lt; [now apply (Hloop s0)|].
    unfold Np.sum_axis1, Lambda_new_un, Np.einsum_ij_kj_ki.
    now rewrite !length_map, (shape_length _ _ _ HG). }
  exists s0. split; [assumption|]. split; [assumption|]. split; [assumption|].
  intros fuel Hf. exists (Lambda s'), (Gamma s'), (lls s'), out.
  split; [apply Hge; lia|].
  destruct Hst as [Hh _ _|Ha _ _]; [|now apply Hpass].
  destruct (loop_head_cases _ _ _ _ _ _ Hh) as [->|[Ha _]]; [assumption|now apply Hpass].
Qed.

(** C2.  In every pass, the new [Lambda] is computed from the current
    [Gamma] and [C]: with [raw[k,i]] the sum over [j] of
    [C[i,j] * Gamma[k,j]], entry [Lambda[i,k]] is [raw[k,i]] divided by the
    sum over [i'] of [raw[k,i']]. *)
Theorem Lambda_update_is_normalized_raw
    (C : matrix) (K : nat) (convergence : R) (max_iter : Z) (random_sample : matrix)
    (s0 s s' : state) (i k : nat) :
  shape (N C) (N C) C ->
  initial_state C K random_sample = inr s0 ->
  loop_head C K convergence max_iter s0 s ->
  body C K s = inr s' ->
  (i < N C)%nat -> (k < K)%nat ->
  Np.get (Lambda_new_un C (Gamma s)) k i = raw C (Gamma s) k i /\
  Np.get (Lambda s') i k =
  raw C (Gamma s) k i / bigsum (N C) (fun i' => raw C (Gamma s) k i').
Proof.
  intros HC H0 Hh Hb Hi Hk.
  pose proof (initial_state_latent _ _ _ _ H0) as HK.
  destruct (initial_state_fields _ _ _ _ H0) as (_ & Ha0 & _ & _).
  assert (HG : shape K (N C) (Gamma s)) by (eapply loop_head_assignment; eauto).
  destruct (body_inr _ _ _ _ Hb) as (-> & _).
  split; [now apply (Lambda_new_un_entry C K)|].
  rewrite (update_Lambda_entry C K) by assumption.
  rewrite (Lambda_new_un_entry C K) by assumption.
  unfold raw. f_equal. apply bigsum_ext. intros i' Hi'.
  now apply (Lambda_new_un_entry C K).
Qed.

(** ** One latent state *)

Section SingleLatentState.

Variable C : matrix.

Lemma assignment_single (G : matrix) :
  assignment C 1 G -> G = [repeat 1 (N C)].
Proof.
  intros [[Hl Hf] Hone].
  destruct G as [|row [|row' G]]; simpl in Hl; try discriminate.
  f_equal. inversion Hf as [|? ? Hrow _]; subst.
  apply (nth_ext _ _ 0 0).
  - now rewrite repeat_length.
  - intros j Hj. rewrite Hrow in Hj.
    destruct (Hone j Hj) as (s & Hs & Hget).
    assert (s = O) by lia. subst s.
    specialize (Hget O Nat.lt_0_1). simpl in Hget.
    unfold Np.get in Hget. simpl in Hget.
    now rewrite Hget, (nth_repeat_lt _ _ Hj).
Qed.

Lemma raw_single (i : nat) :
  (i < N C)%nat ->
  raw C [repeat 1 (N C)] 0 i = bigsum (N C) (fun j => Np.get C i j).
Proof.
  intros Hi. unfold raw. apply bigsum_ext. intros j Hj.
  unfold Np.get at 2. simpl. rewrite (nth_repeat_lt _ _ Hj). lra.
Qed.

Lemma shape_update_Lambda (K : nat) (G : matrix) :
  shape K (N C) G -> shape (N C) K (update_Lambda C G).
Proof.
  intros HG. unfold update_Lambda, Np.transpose. split.
  - now rewrite length_map, length_seq.
  - rewrite Forall_map, Forall_forall. intros j _.
    rewrite column_length. unfold Np.div_col_vector.
    rewrite zip_with_length. unfold Np.sum_axis1, Lambda_new_un, Np.einsum_ij_kj_ki.
    rewrite !length_map, (shape_length _ _ _ HG). apply Nat.min_id.
Qed.

End SingleLatentState.

(** X22.  For [K = 1], a square [C] whose entries do not sum to zero, and
    a threshold [convergence < 1], the call returns a [Gamma] that is the
    all-ones 1 by N row and an N by 1 [Lambda] whose column is the vector of
    row sums of [C] divided by their total, so that it sums to 1. *)
Theorem single_latent_state_marginal
    (C : matrix) (convergence : R) (max_iter : Z) (random_sample : matrix) :
  shape (N C) (N C) C -> convergence < 1 ->
  bigsum (N C) (fun i => bigsum (N C) (fun j => Np.get C i j)) <> 0 ->
  forall fuel, (Z.max 1 (max_iter + 1) <= Z.of_nat fuel)%Z ->
  exists L G ll out,
    estimate_dbmr C 1 convergence max_iter fuel random_sample =
    Some (inr ((L, G, ll), out)) /\
    G = [repeat 1 (N C)] /\
    shape (N C) 1 L /\
    (forall i, (i < N C)%nat ->
       Np.get L i 0 =
       bigsum (N C) (fun j => Np.get C i j) /
       bigsum (N C) (fun i' => bigsum (N C) (fun j => Np.get C i' j))) /\
    column_sums_to_one C L 0.
Proof.
  intros HC Hc Htot fuel Hf.
  destruct (estimate_dbmr_returns C 1 convergence max_iter random_sample Nat.lt_0_1)
    as (s0 & s' & out & H0 & Hst & Hlen & Hge & _).
  destruct (initial_state_fields _ _ _ _ H0) as (_ & Ha0 & _ & Hd).
  assert (Ha : after_pass C 1 convergence max_iter s0 s')
    by (eapply stops_after_pass; [rewrite Hd; lra|exact Hst]).
  exists (Lambda s'), (Gamma s'), (lls s'), out.
  split; [apply Hge; lia|].
  split; [eapply assignment_single, after_pass_assignment; eauto|].
  destruct Ha as (s & Hh & _ & Hb).
  assert (HGs : assignment C 1 (Gamma s)) by (eapply loop_head_assignment; eauto).
  destruct (body_inr _ _ _ _ Hb) as (HL & _).
  assert (Hentry : forall i, (i < N C)%nat ->
            Np.get (Lambda s') i 0 =
            bigsum (N C) (fun j => Np.get C i j) /
            bigsum (N C) (fun i' => bigsum (N C) (fun j => Np.get C i' j))).
  { intros i Hi. rewrite HL.
    rewrite (update_Lambda_entry C 1) by (auto; apply HGs).
    rewrite (bigsum_ext _ (fun i' => Np.get (Lambda_new_un C (Gamma s)) 0 i')
                          (fun i' => bigsum (N C) (fun j => Np.get C i' j))).
    - f_equal. rewrite (Lambda_new_un_entry C 1) by (auto; apply HGs).
      fold (raw C (Gamma s) 0 i). rewrite (assignment_single C _ HGs).
      now apply raw_single.
    - intros i' Hi'. rewrite (Lambda_new_un_entry C 1) by (auto; apply HGs).
      fold (raw C (Gamma s) 0 i'). rewrite (assignment_single C _ HGs).
      now apply raw_single. }
  split; [rewrite HL; apply shape_update_Lambda, HGs|].
  split; [assumption|].
  unfold column_sums_to_one.
  rewrite (bigsum_ext _ _ _ Hentry), bigsum_div by assumption.
  now apply Rdiv_diag.
Qed.

(** ** The hard assignment against the likelihood it should maximize *)

Section FailingInput.

Lemma floor_inactive (x : R) : 1e-16 <= x -> Rmax x 1e-16 = x.
Proof. intros H. now apply Rmax_left. Qed.

Lemma ln_quarter_lt : ln (1/4) < ln (3/4).
Proof. apply ln_increasing; lra. Qed.

Lemma initial_Lambda_draw : initial_Lambda 2 Examples.draw = Examples.draw.
Proof.
  unfold initial_Lambda, Np.div_row_vector, Np.sum_axis0, Examples.draw. simpl.
  repeat (f_equal; try lra).
Qed.

(** By index, the program's assignment of observed state [j] is the first
    argmax over [k] of [score_code L j k], the contraction of row [j] of [C]
    with the logarithms. *)
Lemma hard_assignment_by_index (C : matrix) (K : nat) (L G0 G : matrix) (k j : nat) :
  shape (N C) (N C) C -> shape (N C) K L -> shape K (N C) G0 ->
  hard_assignment C K L G0 = inr G -> (k < K)%nat -> (j < N C)%nat ->
  first_max (map (score_code C L j) (seq 0 K))
            (Np.argmax (map (score_code C L j) (seq 0 K))) /\
  Np.get G k j =
  if Nat.eqb k (Np.argmax (map (score_code C L j) (seq 0 K)))
  then 1 else Np.get G0 k j.
Proof.
  intros HC HL HG0 HG Hk Hj.
  assert (HK : (0 < K)%nat) by lia.
  destruct (hard_assignment_inr C K L G0 HK HG0) as (G' & HG' & _ & Hget).
  rewrite HG in HG'. inversion HG'; subst G'.
  rewrite <- (score_column C K L j HC HL Hj). split.
  - apply argmax_first_max. intros E.
    pose proof (column_length j (score C K L)) as Hl.
    rewrite E, score_length in Hl. simpl in Hl. lia.
  - now apply Hget.
Qed.

End FailingInput.

(** C1, at the input [C = [[0,1],[0,0]]], [K = 2] with the draw
    [[[1/4,3/4],[3/4,1/4]]].  The initialization scores observed state [j]
    by row [j] of [C] and returns [Gamma = [[1,1],[1e-16,1e-16]]]; the
    assignment that scores it by column [j] of [C], as the claim and
    [dbmr_likelihood] pair the indices, is [[1,1e-16],[1e-16,1]], and it has
    the strictly larger likelihood. *)
Theorem hard_assignment_contracts_rows_of_C :
  exists s0,
    initial_state Examples.C_shift 2 Examples.draw = inr s0 /\
    Lambda s0 = Examples.draw /\
    Gamma s0 = [[1; 1]; [0 + 1e-16; 0 + 1e-16]] /\
    hard_assignment_spec Examples.C_shift 2 (Lambda s0) = [[1; 1e-16]; [1e-16; 1]] /\
    dbmr_likelihood (Lambda s0) (Gamma s0) Examples.C_shift <
    dbmr_likelihood (Lambda s0) (hard_assignment_spec Examples.C_shift 2 (Lambda s0))
                    Examples.C_shift.
Proof.
  pose proof ln_quarter_lt as Hln.
  assert (Hspec : hard_assignment_spec Examples.C_shift 2 [[1/4; 3/4]; [3/4; 1/4]] =
                  [[1; 1e-16]; [1e-16; 1]]).
  { unfold hard_assignment_spec, score_spec, bigsum, N, Np.get, Examples.C_shift.
    cbn [seq map nth Np.sum_list fold_right List.length].
    rewrite !floor_inactive by lra.
    unfold Np.argmax, Np.argmax_from.
    repeat match goal with
           | |- context [Rlt_dec ?a ?b] => destruct (Rlt_dec a b); try (exfalso; lra)
           end.
    reflexivity. }
  eexists. split.
  - unfold initial_state. rewrite initial_Lambda_draw.
    unfold hard_assignment, score, Np.einsum_ij_jk_ki, Np.argmax_axis0, N,
      Examples.C_shift, Examples.draw.
    cbn [seq map Np.column Np.log Np.maximum nth Np.dot Np.zip_with Np.sum_list
         fold_right List.length].
    rewrite !floor_inactive by lra.
    unfold Np.argmax, Np.argmax_from.
    repeat match goal with
           | |- context [Rlt_dec ?a ?b] => destruct (Rlt_dec a b); try (exfalso; lra)
           end.
    cbv [assign_loop Np.enumerate Np.add_scalar Np.zeros repeat map combine seq
         List.length fold_left Np.set_item Np.set_nth nth].
    reflexivity.
  - cbn [Lambda Gamma]. split; [reflexivity|]. split; [reflexivity|].
    split; [exact Hspec|]. rewrite Hspec.
    unfold dbmr_likelihood, Np.einsum_ij_kj_ik, Examples.C_shift, Examples.draw.
    cbn [map Np.log Np.maximum Np.zip_with Np.sum_list fold_right].
    rewrite !floor_inactive by lra.
    lra.
Qed.

(** ** The claims at concrete inputs *)

Lemma shape_C_diag : shape 2 2 Examples.C_diag.
Proof. split; [reflexivity|repeat constructor]. Defined.

Lemma shape_draw : shape 2 2 Examples.draw.
Proof. split; [reflexivity|repeat constructor]. Defined.

Lemma nonnegative_C_diag : nonnegative Examples.C_diag.
Proof. repeat constructor; lra. Defined.

(** C6, at a valid input with the threshold [convergence = 1].  The loop
    is entered on [delta_ll > convergence] with [delta_ll] set to 1 to force
    the first pass; at this threshold the test fails on entry, no pass
    runs, and the returned trace is empty. *)
Lemma lls_empty_at_threshold_one :
  shape 2 2 Examples.C_diag /\ nonnegative Examples.C_diag /\
  (1 <= 2)%nat /\ (1 <= 1000)%Z /\ 0 <= 1 /\
  forall fuel, exists L G out,
    estimate_dbmr Examples.C_diag 2 1 1000 fuel Examples.draw =
    Some (inr ((L, G, []), out)).
Proof.
  split; [exact shape_C_diag|]. split; [exact nonnegative_C_diag|].
  split; [lia|]. split; [lia|]. split; [lra|].
  intros fuel.
  destruct (initial_state_inr Examples.C_diag 2 Examples.draw) as (s0 & H0 & _); [lia|].
  exists (initial_Lambda 2 Examples.draw), (Gamma s0), [].
  apply estimate_dbmr_skips_loop; [lra|exact H0].
Qed.

(** C10, at [K = 1] with the threshold [convergence = 1].  The loop is
    skipped as for C6, and the returned [Lambda] is the normalized random
    draw, [1/2] in its first entry, where the normalized row sums of [C]
    give [1/4]. *)
Lemma single_latent_state_without_a_pass :
  shape 2 2 Examples.C_rows /\ nonnegative Examples.C_rows /\ 0 <= 1 /\
  Forall (fun d => d <> 0) (Np.sum_axis0 1 Examples.draw_single) /\
  bigsum 2 (fun j => Np.get Examples.C_rows 0 j) /
  bigsum 2 (fun i => bigsum 2 (fun j => Np.get Examples.C_rows i j)) = 1/4 /\
  forall fuel, exists L G ll out,
    estimate_dbmr Examples.C_rows 1 1 1000 fuel Examples.draw_single =
    Some (inr ((L, G, ll), out)) /\
    Np.get L 0 0 = 1/2.
Proof.
  split; [split; [reflexivity|repeat constructor]|].
  split; [repeat constructor; lra|]. split; [lra|].
  split; [repeat constructor; simpl; lra|].
  split; [unfold bigsum, Np.get; simpl; lra|].
  intros fuel.
  destruct (initial_state_inr Examples.C_rows 1 Examples.draw_single) as (s0 & H0 & _);
    [lia|].
  exists (initial_Lambda 1 Examples.draw_single), (Gamma s0), [], [].
  split; [apply estimate_dbmr_skips_loop; [lra|exact H0]|].
  unfold Np.get. simpl. lra.
Qed.

(** C3 at a 2 by 2 input. *)
Lemma dbmr_likelihood_is_triple_sum_witness :
  dbmr_likelihood Examples.draw [[1; 1e-16]; [1e-16; 1]] Examples.C_diag =
  bigsum 2 (fun i => bigsum 2 (fun j => bigsum 2 (fun k =>
    Np.get Examples.C_diag i j * Np.get [[1; 1e-16]; [1e-16; 1]] k j *
    ln (Rmax (Np.get Examples.draw i k) 1e-16)))).
Proof.
  apply (dbmr_likelihood_is_triple_sum 2 2).
  - exact shape_draw.
  - split; [reflexivity|repeat constructor].
  - exact shape_C_diag.
Defined.

(** C2 at the first pass of the two-state scenario. *)
Lemma Lambda_update_is_normalized_raw_witness :
  exists s0 s',
    initial_state Examples.C_diag 2 Examples.draw = inr s0 /\
    body Examples.C_diag 2 s0 = inr s' /\
    Np.get (Lambda_new_un Examples.C_diag (Gamma s0)) 1 0 =
      raw Examples.C_diag (Gamma s0) 1 0 /\
    Np.get (Lambda s') 0 1 =
      raw Examples.C_diag (Gamma s0) 1 0 /
      bigsum 2 (fun i' => raw Examples.C_diag (Gamma s0) 1 i').
Proof.
  destruct (initial_state_inr Examples.C_diag 2 Examples.draw) as (s0 & H0 & _ & Ha & _);
    [lia|].
  destruct (body_total Examples.C_diag 2 s0) as (s' & Hb & _); [lia|apply Ha|].
  exists s0, s'. split; [exact H0|]. split; [exact Hb|].
  apply (Lambda_update_is_normalized_raw Examples.C_diag 2 1e-16 1000 Examples.draw
           s0 s0 s' 0 1).
  - exact shape_C_diag.
  - exact H0.
  - apply head_entry.
  - exact Hb.
  - simpl. lia.
  - lia.
Defined.

(** C4 at the two-state scenario. *)
Lemma Lambda_columns_sum_to_one_witness :
  exists s0,
    initial_state Examples.C_diag 2 Examples.draw = inr s0 /\
    (forall k, (k < 2)%nat -> column_sums_to_one Examples.C_diag (Lambda s0) k) /\
    (forall s', after_pass Examples.C_diag 2 1e-16 1000 s0 s' ->
       forall k, (k < 2)%nat -> column_sums_to_one Examples.C_diag (Lambda s') k) /\
    (forall fuel, (Z.max 1 (1000 + 1) <= Z.of_nat fuel)%Z ->
       exists L G ll out,
         estimate_dbmr Examples.C_diag 2 1e-16 1000 fuel Examples.draw =
         Some (inr ((L, G, ll), out)) /\
         forall k, (k < 2)%nat -> column_sums_to_one Examples.C_diag L k).
Proof.
  apply (Lambda_columns_sum_to_one Examples.C_diag 2 1e-16 1000 Examples.draw).
  - lia.
  - exact shape_C_diag.
  - exact shape_draw.
  - repeat constructor; simpl; lra.
  - intros s0 s H0 Hh _.
    apply (pass_denominators_nonzero Examples.C_diag 2).
    + exact shape_C_diag.
    + exact nonnegative_C_diag.
    + unfold bigsum, Np.get. simpl. lra.
    + apply (loop_head_assignment Examples.C_diag 2 1e-16 1000 s0 s); [lia| |exact Hh].
      apply (initial_state_fields _ _ _ _ H0).
Defined.

(** C5 at the two-state scenario. *)
Lemma Gamma_columns_are_one_hot_witness :
  exists s0,
    initial_state Examples.C_diag 2 Examples.draw = inr s0 /\
    (forall j, (j < 2)%nat -> one_hot_column 2 (Gamma s0) j) /\
    (forall s', after_pass Examples.C_diag 2 1e-16 1000 s0 s' ->
       forall j, (j < 2)%nat -> one_hot_column 2 (Gamma s') j) /\
    (forall fuel, (Z.max 1 (1000 + 1) <= Z.of_nat fuel)%Z ->
       exists L G ll out,
         estimate_dbmr Examples.C_diag 2 1e-16 1000 fuel Examples.draw =
         Some (inr ((L, G, ll), out)) /\
         forall j, (j < 2)%nat -> one_hot_column 2 G j).
Proof.
  apply (Gamma_columns_are_one_hot Examples.C_diag 2 1e-16 1000 Examples.draw). lia.
Defined.

(** The trace at the two-state scenario with the default parameters. *)
Lemma lls_nonempty_and_bounded_witness :
  exists L G ll out,
    estimate_dbmr Examples.C_diag 2 1e-16 1000 1001 Examples.draw =
    Some (inr ((L, G, ll), out)) /\
    ll <> [] /\ (Z.of_nat (List.length ll) <= 1000 + 1)%Z.
Proof.
  apply (lls_nonempty_and_bounded Examples.C_diag 2 1e-16 1000 Examples.draw).
  - lia.
  - lia.
  - lra.
  - lia.
Defined.

(** C8 at the two-state scenario with [max_iter = 1]: the second pass ends
    with two recorded likelihoods. *)
Lemma nonconvergence_is_reported_and_returned_witness :
  exists s',
    estimate_dbmr Examples.C_diag 2 (1/2) 1 2 Examples.draw =
    Some (inr ((Lambda s', Gamma s', lls s'),
               [[ Str "Did not converge to a delta log-likelohood below";
                  Float (1/2); FormatE (delta_ll s'); FormatI 1 ]])).
Proof.
  destruct (initial_state_inr Examples.C_diag 2 Examples.draw)
    as (s0 & H0 & _ & Ha0 & Hl0 & Hd0); [lia|].
  destruct (body_total Examples.C_diag 2 s0) as (s1 & Hb1 & Ha1); [lia|apply Ha0|].
  destruct (body_total Examples.C_diag 2 s1) as (s2 & Hb2 & _); [lia|apply Ha1|].
  pose proof (body_length _ _ _ _ Hb1) as Hl1. rewrite Hl0 in Hl1. simpl in Hl1.
  pose proof (body_length _ _ _ _ Hb2) as Hl2. rewrite Hl1 in Hl2.
  exists s2.
  apply (nonconvergence_is_reported_and_returned Examples.C_diag 2 (1/2) 1
           Examples.draw s0 s1 s2).
  - exact H0.
  - apply (head_next _ _ _ _ s0 s0 s1).
    + apply head_entry.
    + rewrite Hd0. lra.
    + exact Hb1.
    + rewrite Hl1. simpl. lia.
  - destruct (body_inr _ _ _ _ Hb1) as (_ & _ & _ & Hd1).
    rewrite Hl0 in Hd1. rewrite Hd1. lra.
  - exact Hb2.
  - rewrite Hl2. simpl. lia.
  - rewrite Hl2. lia.
Defined.

(** C9 at the two-state scenario with the default parameters. *)
Lemma estimation_loop_terminates_witness :
  exists s0 n,
    initial_state Examples.C_diag 2 Examples.draw = inr s0 /\
    (Z.of_nat n <= 1000 + 1)%Z /\
    (forall fuel, (n <= fuel)%nat ->
       exists s' out,
         while_loop Examples.C_diag 2 1e-16 1000 fuel s0 = Some (inr (s', out)) /\
         List.length (lls s') = n) /\
    (forall fuel, (fuel < n)%nat ->
       while_loop Examples.C_diag 2 1e-16 1000 fuel s0 = None) /\
    (forall s s', body Examples.C_diag 2 s = inr s' -> exists ll, lls s' = lls s ++ [ll]).
Proof.
  apply (estimation_loop_terminates Examples.C_diag 2 1e-16 1000 Examples.draw); lia.
Defined.

(** X22 at [C = [[1,0],[0,3]]] with the default parameters. *)
Lemma single_latent_state_marginal_witness :
  exists L G ll out,
    estimate_dbmr Examples.C_rows 1 1e-16 1000 1001 Examples.draw_single =
    Some (inr ((L, G, ll), out)) /\
    G = [repeat 1 (N Examples.C_rows)] /\
    shape (N Examples.C_rows) 1 L /\
    (forall i, (i < N Examples.C_rows)%nat ->
       Np.get L i 0 =
       bigsum (N Examples.C_rows) (fun j => Np.get Examples.C_rows i j) /
       bigsum (N Examples.C_rows)
              (fun i' => bigsum (N Examples.C_rows) (fun j => Np.get Examples.C_rows i' j))) /\
    column_sums_to_one Examples.C_rows L 0.
Proof.
  apply (single_latent_state_marginal Examples.C_rows 1e-16 1000 Examples.draw_single).
  - split; [reflexivity|repeat constructor].
  - lra.
  - unfold bigsum, Np.get. simpl. lra.
  - lia.
Defined.

(** * Further properties of [estimate_dbmr] *)

(** ** How the call ends *)

Section Ending.

Variable C : matrix.
Variable K : nat.
Variable convergence : R.
Variable max_iter : Z.

Lemma estimate_dbmr_stops (random_sample : matrix) (fuel : nat) :
  (0 < K)%nat -> (Z.max 1 (max_iter + 1) <= Z.of_nat fuel)%Z ->
  exists s0 s' out,
    initial_state C K random_sample = inr s0 /\
    stops C K convergence max_iter s0 s' out /\
    estimate_dbmr C K convergence max_iter fuel random_sample =
    Some (inr ((Lambda s', Gamma s', lls s'), out)).
Proof.
  intros HK Hf.
  destruct (estimate_dbmr_returns C K convergence max_iter random_sample HK)
    as (s0 & s' & out & H0 & Hst & Hlen & Hge & _).
  exists s0, s', out. split; [assumption|]. split; [assumption|].
  apply Hge. lia.
Qed.

(** The delta of a pass: 1 on the first pass, the distance between the last
    two recorded likelihoods afterwards. *)
Lemma after_pass_delta (s0 s' : state) :
  after_pass C K convergence max_iter s0 s' ->
  (exists ll, lls s' = [ll] /\ delta_ll s' = 1) \/
  (exists pre a b, lls s' = pre ++ [a; b] /\ delta_ll s' = Rabs (b - a)).
Proof.
  intros (s & _ & _ & Hb).
  destruct (body_inr _ _ _ _ Hb) as (_ & _ & Hl & Hd).
  destruct (lls s) as [|x l] eqn:E.
  - left. eexists. split; [exact Hl|exact Hd].
  - right. destruct (exists_last (l := x :: l)) as (pre & a & Hpa); [discriminate|].
    rewrite Hpa in Hl, Hd. rewrite last_last in Hd.
    exists pre, a, (dbmr_likelihood (Lambda s') (Gamma s') C).
    split; [now rewrite Hl, <- app_assoc|].
    destruct (pre ++ [a]) eqn:E'; [now destruct pre|exact Hd].
Qed.


End Ending.

(** X1.  Without latent states ([K = 0]) the call raises the ValueError of
    [np.argmax] at line 38, whatever the other arguments. *)
Theorem estimate_dbmr_raises_without_latent_states
    (C : matrix) (convergence : R) (max_iter : Z) (fuel : nat) (random_sample : matrix) :
  estimate_dbmr C 0 convergence max_iter fuel random_sample = Some (inl Np.ValueError).
Proof.
  unfold estimate_dbmr, initial_state.
  now rewrite hard_assignment_raises_without_latent_states.
Qed.

(** X2.  For [max_iter >= 0] the diagnostic is printed exactly when the
    returned trace is longer than [max_iter]: either nothing is printed and
    [len(lls) <= max_iter], or exactly one diagnostic is printed and
    [len(lls) = max_iter + 1]. *)
Theorem diagnostic_exactly_at_the_cap
    (C : matrix) (K : nat) (convergence : R) (max_iter : Z) (random_sample : matrix) :
  (1 <= K)%nat -> (0 <= max_iter)%Z ->
  forall fuel, (max_iter + 1 <= Z.of_nat fuel)%Z ->
  exists L G ll out,
    estimate_dbmr C K convergence max_iter fuel random_sample =
    Some (inr ((L, G, ll), out)) /\
    ((out = [] /\ (Z.of_nat (List.length ll) <= max_iter)%Z) \/
     (exists d,
        out = [[ Str "Did not converge to a delta log-likelohood below";
                 Float convergence; FormatE d; FormatI max_iter ]] /\
        Z.of_nat (List.length ll) = (max_iter + 1)%Z)).
Proof.
  intros HK Hm fuel Hf.
  destruct (estimate_dbmr_stops C K convergence max_iter random_sample fuel)
    as (s0 & s' & out & H0 & Hst & He); [lia|lia|].
  exists (Lambda s'), (Gamma s'), (lls s'), out. split; [assumption|].
  destruct (initial_state_fields _ _ _ _ H0) as (_ & _ & Hl & _).
  pose proof (stops_length _ _ _ _ _ _ _ Hl Hst) as Hlen.
  destruct Hst as [Hh _ ->|Ha Hg ->].
  - left. split; [reflexivity|].
    pose proof (loop_head_length _ _ _ _ _ _ Hl Hh). lia.
  - right. exists (delta_ll s'). split; [reflexivity|lia].
Qed.

(** X3.  For [convergence < 1] and [max_iter >= 1] the loop runs at least
    two passes: the first delta is forced to 1, so the trace holds at least
    two likelihoods (exactly two when [max_iter = 1]). *)
Theorem at_least_two_passes
    (C : matrix) (K : nat) (convergence : R) (max_iter : Z) (random_sample : matrix) :
  (1 <= K)%nat -> (1 <= max_iter)%Z -> convergence < 1 ->
  forall fuel, (max_iter + 1 <= Z.of_nat fuel)%Z ->
  exists L G ll out,
    estimate_dbmr C K convergence max_iter fuel random_sample =
    Some (inr ((L, G, ll), out)) /\
    (2 <= List.length ll)%nat /\ (Z.of_nat (List.length ll) <= max_iter + 1)%Z.
Proof.
  intros HK Hm Hc fuel Hf.
  destruct (estimate_dbmr_stops C K convergence max_iter random_sample fuel)
    as (s0 & s' & out & H0 & Hst & He); [lia|lia|].
  exists (Lambda s'), (Gamma s'), (lls s'), out. split; [assumption|].
  destruct (initial_state_fields _ _ _ _ H0) as (_ & _ & Hl & Hd).
  pose proof (stops_length _ _ _ _ _ _ _ Hl Hst) as Hlen.
  split; [|lia].
  destruct Hst as [Hh Hn _|Ha Hg _]; [|lia].
  destruct (loop_head_cases _ _ _ _ _ _ Hh) as [->|[Ha _]].
  - rewrite Hd in Hn. lra.
  - destruct (after_pass_delta _ _ _ _ _ _ Ha) as [(ll & _ & Hd1)|(pre & a & b & -> & _)].
    + rewrite Hd1 in Hn. lra.
    + rewrite length_app. simpl. lia.
Qed.

(** X4.  For [max_iter <= 0] and [convergence < 1] exactly one pass runs:
    the trace holds one likelihood and the diagnostic is printed with the
    forced delta 1. *)
Theorem single_pass_below_one_iteration
    (C : matrix) (K : nat) (convergence : R) (max_iter : Z) (random_sample : matrix) :
  (1 <= K)%nat -> (max_iter <= 0)%Z -> convergence < 1 ->
  forall fuel, (1 <= fuel)%nat ->
  exists L G x,
    estimate_dbmr C K convergence max_iter fuel random_sample =
    Some (inr ((L, G, [x]),
               [[ Str "Did not converge to a delta log-likelohood below";
                  Float convergence; FormatE 1; FormatI max_iter ]])).
Proof.
  intros HK Hm Hc fuel Hf.
  destruct (estimate_dbmr_stops C K convergence max_iter random_sample fuel)
    as (s0 & s' & out & H0 & Hst & He); [lia|lia|].
  destruct (initial_state_fields _ _ _ _ H0) as (_ & _ & Hl & Hd).
  pose proof (stops_length _ _ _ _ _ _ _ Hl Hst) as Hlen.
  assert (Ha : after_pass C K convergence max_iter s0 s')
    by (eapply stops_after_pass; [rewrite Hd; lra|exact Hst]).
  destruct (after_pass_delta _ _ _ _ _ _ Ha) as [(x & Hx & Hd1)|(pre & a & b & Hp & _)].
  - exists (Lambda s'), (Gamma s'), x. rewrite He, Hx. repeat f_equal.
    destruct Hst as [Hh Hn _|_ _ ->].
    + rewrite Hd1 in Hn. lra.
    + unfold diagnostic. now rewrite Hd1.
  - rewrite Hp, length_app in Hlen. simpl in Hlen. lia.
Qed.


(** X6.  The delta shown in a printed diagnostic is 1 when the trace holds
    one likelihood, and otherwise the distance between its last two
    entries. *)
Theorem diagnostic_reports_last_delta
    (C : matrix) (K : nat) (convergence : R) (max_iter : Z) (random_sample : matrix) :
  (1 <= K)%nat ->
  forall fuel, (Z.max 1 (max_iter + 1) <= Z.of_nat fuel)%Z ->
  exists L G ll out,
    estimate_dbmr C K convergence max_iter fuel random_sample =
    Some (inr ((L, G, ll), out)) /\
    forall line, In line out ->
      exists d,
        line = [ Str "Did not converge to a delta log-likelohood below";
                 Float convergence; FormatE d; FormatI max_iter ] /\
        ((exists x, ll = [x] /\ d = 1) \/
         (exists pre a b, ll = pre ++ [a; b] /\ d = Rabs (b - a))).
Proof.
  intros HK fuel Hf.
  destruct (estimate_dbmr_stops C K convergence max_iter random_sample fuel)
    as (s0 & s' & out & H0 & Hst & He); [lia|lia|].
  exists (Lambda s'), (Gamma s'), (lls s'), out. split; [assumption|].
  intros line Hin.
  destruct Hst as [_ _ ->|Ha _ ->]; [destruct Hin|].
  destruct Hin as [<-|[]]. exists (delta_ll s'). split; [reflexivity|].
  destruct (after_pass_delta _ _ _ _ _ _ Ha) as [(x & Hx & Hd1)|(pre & a & b & Hp & Hd2)].
  - left. eauto.
  - right. exists pre, a, b. auto.
Qed.


(** ** What the passes compute *)

Section Passes.

Lemma matrix_ext (r c : nat) (A B : matrix) :
  shape r c A -> shape r c B ->
  (forall i j, (i < r)%nat -> (j < c)%nat -> Np.get A i j = Np.get B i j) ->
  A = B.
Proof.
  intros HA HB H. apply (nth_ext _ _ [] []).
  - now rewrite (shape_length _ _ _ HA), (shape_length _ _ _ HB).
  - intros i Hi. rewrite (shape_length _ _ _ HA) in Hi.
    apply (nth_ext _ _ 0 0).
    + now rewrite (shape_row _ _ _ _ HA), (shape_row _ _ _ _ HB).
    + intros j Hj. rewrite (shape_row _ _ _ _ HA) in Hj by assumption.
      now apply H.
Qed.

Lemma fill_constant (r c : nat) (G : matrix) (x : R) :
  shape r c G -> constant r c (Np.fill G x) x.
Proof. intros HG i j Hi Hj. now apply (get_fill r c). Qed.

Lemma fill_shape_eq (r c : nat) (G G' : matrix) (x : R) :
  shape r c G -> shape r c G' -> Np.fill G x = Np.fill G' x.
Proof.
  intros HG HG'. apply (matrix_ext r c); auto using shape_fill.
  intros i j Hi Hj. now rewrite !(get_fill r c).
Qed.

Lemma floor_array_is_fill (r c : nat) (G : matrix) :
  shape r c G -> Np.add_scalar (Np.zeros r c) 1e-16 = Np.fill G 1e-16.
Proof.
  intros HG. apply (matrix_ext r c).
  - apply shape_add_scalar, shape_zeros.
  - now apply shape_fill.
  - intros i j Hi Hj. now rewrite get_floor_array, (get_fill r c).
Qed.

(** The assignment depends on the array it writes into only through the
    shape of that array, once the array holds the floor everywhere. *)
Lemma hard_assignment_floor_indep (C : matrix) (K : nat) (L G0 G0' : matrix) :
  shape K (N C) G0 -> shape K (N C) G0' ->
  constant K (N C) G0 1e-16 -> constant K (N C) G0' 1e-16 ->
  hard_assignment C K L G0 = hard_assignment C K L G0'.
Proof.
  intros H1 H2 Hc1 Hc2. f_equal. apply (matrix_ext K (N C)); auto.
  intros i j Hi Hj. now rewrite Hc1, Hc2.
Qed.

Lemma dbmr_likelihood_by_index (n K : nat) (L G Count : matrix) :
  shape n K L -> shape K n G -> shape n n Count ->
  dbmr_likelihood L G Count =
  bigsum n (fun i => bigsum n (fun j => bigsum K (fun k =>
    Np.get Count i j * Np.get G k j * ln (Rmax (Np.get L i k) 1e-16)))).
Proof.
  intros HL HG HC. unfold dbmr_likelihood, Np.einsum_ij_kj_ik.
  pose proof (shape_log_maximum _ _ _ 1e-16 HL) as HlogL.
  rewrite (sum_list_zip_with [] [] _ _ _ n) by (eauto using shape_length).
  apply bigsum_ext. intros i Hi.
  rewrite (sum_list_zip_with [] 0 _ _ _ K) by (eauto using shape_length, shape_row).
  rewrite bigsum_swap. apply bigsum_ext. intros k Hk.
  rewrite (sum_list_zip_with 0 0 _ _ _ n) by (eauto using shape_row).
  apply bigsum_ext. intros j Hj.
  fold (Np.get Count i j) (Np.get G k j).
  fold (Np.get (Np.log (Np.maximum L 1e-16)) i k).
  rewrite get_log_maximum; [reflexivity| |].
  - now rewrite (shape_length _ _ _ HL).
  - now rewrite (shape_row _ _ _ _ HL).
Qed.

Lemma ln_le_mono (x y : R) : 0 < x -> x <= y -> ln x <= ln y.
Proof.
  intros Hx [Hlt|Heq]; [|subst; lra]. left. now apply ln_increasing.
Qed.

Lemma bigsum_term_le (n : nat) (f : nat -> R) (i : nat) :
  (forall k, (k < n)%nat -> 0 <= f k) -> (i < n)%nat -> f i <= bigsum n f.
Proof.
  revert f i. induction n as [|n IH]; intros f i Hf Hi; [lia|].
  rewrite bigsum_head.
  assert (H0 : 0 <= f O) by (apply Hf; lia).
  assert (Hrest : 0 <= bigsum n (fun k => f (S k)))
    by (apply bigsum_nonneg; intros; apply Hf; lia).
  destruct i as [|i]; [lra|].
  assert (f (S i) <= bigsum n (fun k => f (S k))).
  { apply (IH (fun k => f (S k))); [intros; apply Hf; lia|lia]. }
  lra.
Qed.

Lemma shape_initial_Lambda (n K : nat) (random_sample : matrix) :
  shape n K random_sample -> shape n K (initial_Lambda K random_sample).
Proof.
  intros [Hl Hf]. unfold initial_Lambda, Np.div_row_vector. split.
  - now rewrite length_map.
  - rewrite Forall_map. eapply Forall_impl; [|exact Hf].
    intros row Hrow. cbv beta. rewrite zip_with_length, Hrow.
    unfold Np.sum_axis0. rewrite length_map, length_seq. apply Nat.min_id.
Qed.

End Passes.

Section Repetition.

Variable C : matrix.
Variable K : nat.

Lemma initial_state_assignment (random_sample : matrix) (s0 : state) :
  initial_state C K random_sample = inr s0 ->
  hard_assignment C K (Lambda s0) (Np.add_scalar (Np.zeros K (N C)) 1e-16) =
  inr (Gamma s0).
Proof.
  unfold initial_state. intros H.
  destruct (hard_assignment C K (initial_Lambda K random_sample)
              (Np.add_scalar (Np.zeros K (N C)) 1e-16)) as [e|G] eqn:E; [discriminate|].
  inversion H; subst. simpl. exact E.
Qed.

(** A pass reads the state only through [Gamma] and [lls]: when a pass
    leaves [Gamma] as it found it, the next pass recomputes the same
    [Lambda], [Gamma] and likelihood, so its delta is 0. *)
Lemma body_after_repeated_assignment (s s1 s2 : state) :
  body C K s = inr s1 -> body C K s1 = inr s2 -> Gamma s1 = Gamma s ->
  Lambda s2 = Lambda s1 /\ Gamma s2 = Gamma s1 /\ delta_ll s2 = 0 /\
  exists x, lls s2 = lls s ++ [x; x].
Proof.
  intros H1 H2 HG.
  destruct (body_inr _ _ _ _ H1) as (HL1 & HG1 & Hl1 & _).
  destruct (body_inr _ _ _ _ H2) as (HL2 & HG2 & Hl2 & Hd2).
  assert (EL : Lambda s2 = Lambda s1) by (now rewrite HL2, HL1, HG).
  assert (EG : Gamma s2 = Gamma s1).
  { rewrite EL, HG, HG1 in HG2. now inversion HG2. }
  split; [assumption|]. split; [assumption|]. split.
  - rewrite Hd2, Hl1, EL, EG, last_last.
    destruct (lls s ++ _) eqn:E; [now destruct (lls s)|].
    now rewrite Rminus_diag, Rabs_R0.
  - exists (dbmr_likelihood (Lambda s1) (Gamma s1) C).
    now rewrite Hl2, Hl1, EL, EG, <- app_assoc.
Qed.

Lemma while_loop_stopped (convergence : R) (max_iter : Z) (fuel : nat) (s : state) :
  ~ delta_ll s > convergence ->
  while_loop C K convergence max_iter fuel s = Some (inr (s, [])).
Proof.
  intros Hn. destruct fuel; simpl;
    destruct (Rgt_dec (delta_ll s) convergence); try contradiction; reflexivity.
Qed.

Lemma while_loop_two_passes (convergence : R) (max_iter : Z) (fuel : nat)
      (s0 s1 s2 : state) :
  delta_ll s0 > convergence -> body C K s0 = inr s1 ->
  (Z.of_nat (List.length (lls s1)) <= max_iter)%Z ->
  delta_ll s1 > convergence -> body C K s1 = inr s2 ->
  ~ delta_ll s2 > convergence -> (2 <= fuel)%nat ->
  while_loop C K convergence max_iter fuel s0 =
  Some (inr (s2, if (Z.of_nat (List.length (lls s2)) >? max_iter)%Z
                 then [diagnostic convergence max_iter (delta_ll s2)] else [])).
Proof.
  intros Hd0 Hb1 Hl1 Hd1 Hb2 Hd2 Hf.
  destruct fuel as [|[|fuel]]; try lia. simpl.
  destruct (Rgt_dec (delta_ll s0) convergence); [|contradiction]. rewrite Hb1.
  destruct (Z.gtb_spec (Z.of_nat (List.length (lls s1))) max_iter); [lia|].
  destruct (Rgt_dec (delta_ll s1) convergence); [|contradiction]. rewrite Hb2.
  destruct (Z.of_nat (List.length (lls s2)) >? max_iter)%Z; [reflexivity|].
  now apply while_loop_stopped.
Qed.

End Repetition.

(** X8.  The returned [Gamma] is always the hard assignment computed from
    the returned [Lambda], and when the trace is not empty its last entry
    is the likelihood of the returned pair. *)
Theorem returned_estimate_is_consistent
    (C : matrix) (K : nat) (convergence : R) (max_iter : Z) (random_sample : matrix) :
  (1 <= K)%nat ->
  forall fuel, (Z.max 1 (max_iter + 1) <= Z.of_nat fuel)%Z ->
  exists L G ll out,
    estimate_dbmr C K convergence max_iter fuel random_sample =
    Some (inr ((L, G, ll), out)) /\
    hard_assignment C K L (Np.fill G 1e-16) = inr G /\
    (ll = [] \/ exists pre, ll = pre ++ [dbmr_likelihood L G C]).
Proof.
  intros HK fuel Hf.
  destruct (estimate_dbmr_stops C K convergence max_iter random_sample fuel)
    as (s0 & s' & out & H0 & Hst & He); [lia|lia|].
  exists (Lambda s'), (Gamma s'), (lls s'), out. split; [assumption|].
  destruct (initial_state_fields _ _ _ _ H0) as (_ & Ha0 & Hl & _).
  assert (Hcases : s' = s0 \/ after_pass C K convergence max_iter s0 s').
  { destruct Hst as [Hh _ _|Ha _ _]; [|now right].
    destruct (loop_head_cases _ _ _ _ _ _ Hh) as [->|[Ha _]]; auto. }
  destruct Hcases as [->|Ha].
  - split; [|now left].
    rewrite <- (floor_array_is_fill K (N C)) by apply Ha0.
    now apply (initial_state_assignment C K random_sample).
  - pose proof (after_pass_assignment _ _ _ _ _ _ HK Ha0 Ha) as [Hs' _].
    destruct Ha as (s & Hh & _ & Hb).
    pose proof (loop_head_assignment _ _ _ _ _ _ HK Ha0 Hh) as [Hs _].
    destruct (body_inr _ _ _ _ Hb) as (_ & HG & Hll & _).
    split; [now rewrite (fill_shape_eq K (N C) (Gamma s') (Gamma s))|].
    right. eauto.
Qed.

(** X9.  For nonnegative counts that are not all zero and a one-hot [Gamma]
    (so that no pass divides by zero): when a pass leaves [Gamma] as it
    found it, the next pass recomputes the same [Lambda] and [Gamma],
    appends the same likelihood again and has delta 0, so the loop stops
    there for any threshold [convergence >= 0]. *)
Theorem repeated_assignment_gives_zero_delta
    (C : matrix) (K : nat) (s s1 s2 : state) :
  shape (N C) (N C) C -> nonnegative C ->
  0 < bigsum (N C) (fun i => bigsum (N C) (fun j => Np.get C i j)) ->
  assignment C K (Gamma s) ->
  body C K s = inr s1 -> body C K s1 = inr s2 -> Gamma s1 = Gamma s ->
  Lambda s2 = Lambda s1 /\ Gamma s2 = Gamma s1 /\ delta_ll s2 = 0 /\
  (exists x, lls s2 = lls s ++ [x; x]) /\
  forall convergence max_iter fuel, 0 <= convergence ->
    while_loop C K convergence max_iter fuel s2 = Some (inr (s2, [])).
Proof.
  intros _ _ _ _ H1 H2 HG.
  destruct (body_after_repeated_assignment C K s s1 s2 H1 H2 HG)
    as (EL & EG & Hd & Hx).
  repeat (split; [assumption|]).
  intros convergence max_iter fuel Hc. apply while_loop_stopped. rewrite Hd. lra.
Qed.

(** X10.  With one latent state, nonnegative counts that are not all zero
    (so that no pass divides by zero) and [0 <= convergence < 1],
    [max_iter >= 1], the call runs exactly two passes and records the same
    likelihood twice.  Nothing is printed when [max_iter >= 2]; when
    [max_iter = 1] the diagnostic is printed although the delta it shows
    is 0. *)
Theorem single_latent_state_two_passes
    (C : matrix) (convergence : R) (max_iter : Z) (random_sample : matrix) :
  shape (N C) (N C) C -> nonnegative C ->
  0 < bigsum (N C) (fun i => bigsum (N C) (fun j => Np.get C i j)) ->
  0 <= convergence -> convergence < 1 -> (1 <= max_iter)%Z ->
  forall fuel, (2 <= fuel)%nat ->
  exists L G x,
    estimate_dbmr C 1 convergence max_iter fuel random_sample =
    Some (inr ((L, G, [x; x]),
               if (2 >? max_iter)%Z
               then [[ Str "Did not converge to a delta log-likelohood below";
                       Float convergence; FormatE 0; FormatI max_iter ]]
               else [])).
Proof.
  intros _ _ _ Hc0 Hc1 Hm fuel Hf.
  destruct (initial_state_inr C 1 random_sample Nat.lt_0_1)
    as (s0 & H0 & _ & Ha0 & Hl0 & Hd0).
  destruct (body_total C 1 s0 Nat.lt_0_1 (proj1 Ha0)) as (s1 & Hb1 & Ha1).
  destruct (body_total C 1 s1 Nat.lt_0_1 (proj1 Ha1)) as (s2 & Hb2 & Ha2).
  assert (HG : Gamma s1 = Gamma s0)
    by (now rewrite (assignment_single C _ Ha1), (assignment_single C _ Ha0)).
  destruct (body_after_repeated_assignment C 1 s0 s1 s2 Hb1 Hb2 HG)
    as (_ & _ & Hd2 & x & Hx).
  rewrite Hl0 in Hx. simpl in Hx.
  pose proof (body_length _ _ _ _ Hb1) as Hlen1. rewrite Hl0 in Hlen1.
  destruct (body_inr _ _ _ _ Hb1) as (_ & _ & _ & Hd1). rewrite Hl0 in Hd1.
  exists (Lambda s2), (Gamma s2), x.
  unfold estimate_dbmr. rewrite H0.
  rewrite (while_loop_two_passes C 1 convergence max_iter fuel s0 s1 s2);
    try assumption.
  - rewrite Hx, Hd2. reflexivity.
  - rewrite Hd0. lra.
  - rewrite Hlen1. simpl. lia.
  - rewrite Hd1. lra.
  - rewrite Hd2. lra.
Qed.

(** X11.  Given an N by K draw, the returned [Lambda] is an N by K array
    and the returned [Gamma] a K by N array. *)
Theorem returned_shapes
    (C : matrix) (K : nat) (convergence : R) (max_iter : Z) (random_sample : matrix) :
  (1 <= K)%nat -> shape (N C) K random_sample ->
  forall fuel, (Z.max 1 (max_iter + 1) <= Z.of_nat fuel)%Z ->
  exists L G ll out,
    estimate_dbmr C K convergence max_iter fuel random_sample =
    Some (inr ((L, G, ll), out)) /\
    shape (N C) K L /\ shape K (N C) G.
Proof.
  intros HK Hs fuel Hf.
  destruct (estimate_dbmr_stops C K convergence max_iter random_sample fuel)
    as (s0 & s' & out & H0 & Hst & He); [lia|lia|].
  exists (Lambda s'), (Gamma s'), (lls s'), out. split; [assumption|].
  destruct (initial_state_fields _ _ _ _ H0) as (HL0 & Ha0 & _ & _).
  assert (Hcases : s' = s0 \/ after_pass C K convergence max_iter s0 s').
  { destruct Hst as [Hh _ _|Ha _ _]; [|now right].
    destruct (loop_head_cases _ _ _ _ _ _ Hh) as [->|[Ha _]]; auto. }
  destruct Hcases as [->|Ha].
  - split; [rewrite HL0; now apply shape_initial_Lambda|apply Ha0].
  - split; [|eapply after_pass_assignment; eauto].
    destruct Ha as (s & Hh & _ & Hb).
    destruct (body_inr _ _ _ _ Hb) as (-> & _).
    apply shape_update_Lambda. eapply loop_head_assignment; eauto.
Qed.

(** ** The assignment by index *)

Section AssignmentByIndex.

Variable C : matrix.
Variable K : nat.

Lemma shape_hard_assignment_spec (L : matrix) :
  shape K (N C) (hard_assignment_spec C K L).
Proof.
  unfold hard_assignment_spec. split.
  - now rewrite length_map, length_seq.
  - rewrite Forall_map, Forall_forall. intros k _.
    now rewrite length_map, length_seq.
Qed.

Lemma get_hard_assignment_spec (L : matrix) (k j : nat) :
  (k < K)%nat -> (j < N C)%nat ->
  Np.get (hard_assignment_spec C K L) k j =
  if Nat.eqb k (Np.argmax (map (score_spec C L j) (seq 0 K))) then 1 else 1e-16.
Proof.
  intros Hk Hj. unfold Np.get, hard_assignment_spec.
  rewrite (nth_map_lt _ _ _ O) by (now rewrite length_seq).
  rewrite (nth_map_lt _ _ _ O) by (now rewrite length_seq).
  now rewrite !seq_nth.
Qed.

Lemma score_code_symmetric (L : matrix) (j k : nat) :
  symmetric C -> score_code C L j k = score_spec C L j k.
Proof.
  intros Hsym. unfold score_code, score_spec.
  apply bigsum_ext. intros i _. now rewrite (Hsym j i).
Qed.

End AssignmentByIndex.

(** X12.  Written into an array that holds the floor everywhere, the
    assignment gives observed state [j] to the first latent state [m] that
    maximizes the sum over [i] of [C[j,i] * log(max(L[i,k], 1e-16))]: the
    entry [G[m,j]] is 1 and the rest of column [j] stays at [1e-16]. *)
Theorem hard_assignment_is_first_argmax_over_rows
    (C : matrix) (K : nat) (L G0 : matrix) :
  (1 <= K)%nat -> shape (N C) (N C) C -> shape (N C) K L ->
  shape K (N C) G0 -> constant K (N C) G0 1e-16 ->
  exists G,
    hard_assignment C K L G0 = inr G /\
    forall j, (j < N C)%nat ->
    exists m,
      first_max (map (score_code C L j) (seq 0 K)) m /\
      forall k, (k < K)%nat -> Np.get G k j = if Nat.eqb k m then 1 else 1e-16.
Proof.
  intros HK HC HL HG0 Hfloor.
  destruct (hard_assignment_inr C K L G0) as (G & HG & _ & _); [lia|assumption|].
  exists G. split; [assumption|]. intros j Hj.
  exists (Np.argmax (map (score_code C L j) (seq 0 K))). split.
  - apply (hard_assignment_by_index C K L G0 G O j); auto; lia.
  - intros k Hk.
    destruct (hard_assignment_by_index C K L G0 G k j) as (_ & ->); auto.
    destruct (Nat.eqb k _); [reflexivity|]. now apply Hfloor.
Qed.

(** X13.  For a symmetric count matrix the assignment the program computes
    is the one that maximizes the likelihood column by column, scoring
    observed state [j] by the sum over [i] of
    [C[i,j] * log(max(L[i,k], 1e-16))]. *)
Theorem symmetric_counts_give_the_column_assignment
    (C : matrix) (K : nat) (L G0 : matrix) :
  (1 <= K)%nat -> shape (N C) (N C) C -> shape (N C) K L -> symmetric C ->
  shape K (N C) G0 -> constant K (N C) G0 1e-16 ->
  hard_assignment C K L G0 = inr (hard_assignment_spec C K L).
Proof.
  intros HK HC HL Hsym HG0 Hfloor.
  destruct (hard_assignment_inr C K L G0) as (G & HG & Hshape & Hget);
    [lia|assumption|].
  rewrite HG. f_equal. apply (matrix_ext K (N C)).
  - assumption.
  - apply shape_hard_assignment_spec.
  - intros k j Hk Hj.
    rewrite Hget, get_hard_assignment_spec by assumption.
    rewrite (score_column C K L j HC HL Hj).
    rewrite (map_ext _ _ (fun k' => score_code_symmetric C L j k' Hsym)).
    destruct (Nat.eqb k _); [reflexivity|]. now apply Hfloor.
Qed.

(** ** Ranges *)

Section Ranges.

Variable C : matrix.
Variable K : nat.

Hypothesis C_square : shape (N C) (N C) C.
Hypothesis C_nonnegative : nonnegative C.
Hypothesis C_not_zero :
  0 < bigsum (N C) (fun i => bigsum (N C) (fun j => Np.get C i j)).

Lemma Lambda_new_un_nonneg (G : matrix) (k i : nat) :
  assignment C K G -> (k < K)%nat -> (i < N C)%nat ->
  0 <= Np.get (Lambda_new_un C G) k i.
Proof.
  intros HG Hk Hi.
  rewrite (Lambda_new_un_entry C K) by (auto; apply HG).
  apply bigsum_nonneg. intros j Hj.
  apply Rmult_le_pos; [now apply nonnegative_get|].
  pose proof (one_hot_entry_ge C K G k j HG Hk Hj). lra.
Qed.

Lemma Lambda_new_un_row_positive (G : matrix) (k : nat) :
  assignment C K G -> (k < K)%nat ->
  0 < bigsum (N C) (fun i => Np.get (Lambda_new_un C G) k i).
Proof.
  intros HG Hk.
  assert (Hle : bigsum (N C) (fun i => bigsum (N C) (fun j => Np.get C i j)) * 1e-16 <=
                bigsum (N C) (fun i => Np.get (Lambda_new_un C G) k i)).
  { rewrite <- bigsum_scal_r. apply bigsum_le. intros i Hi.
    rewrite (Lambda_new_un_entry C K) by (auto; apply HG).
    rewrite <- bigsum_scal_r. apply bigsum_le. intros j Hj.
    apply Rmult_le_compat_l; [now apply nonnegative_get|].
    now apply (one_hot_entry_ge C K). }
  assert (0 < bigsum (N C) (fun i => bigsum (N C) (fun j => Np.get C i j)) * 1e-16)
    by (apply Rmult_lt_0_compat; lra).
  lra.
Qed.

Lemma update_Lambda_unit_interval (G : matrix) (i k : nat) :
  assignment C K G -> (i < N C)%nat -> (k < K)%nat ->
  0 <= Np.get (update_Lambda C G) i k <= 1.
Proof.
  intros HG Hi Hk.
  rewrite (update_Lambda_entry C K) by (auto; apply HG).
  pose proof (Lambda_new_un_row_positive G k HG Hk) as Hpos.
  pose proof (Lambda_new_un_nonneg G k i HG Hk Hi) as Hnn.
  assert (Hle : Np.get (Lambda_new_un C G) k i <=
                bigsum (N C) (fun i' => Np.get (Lambda_new_un C G) k i')).
  { apply (bigsum_term_le (N C) (fun i' => Np.get (Lambda_new_un C G) k i')); auto.
    intros i' Hi'. now apply Lambda_new_un_nonneg. }
  split.
  - apply Rmult_le_pos; [assumption|]. left. now apply Rinv_0_lt_compat.
  - apply (Rmult_le_reg_r (bigsum (N C) (fun i' => Np.get (Lambda_new_un C G) k i')));
      [assumption|].
    unfold Rdiv. rewrite Rmult_assoc, Rinv_l by lra. lra.
Qed.

Lemma pass_likelihood_nonpositive (G G' : matrix) :
  assignment C K G -> assignment C K G' ->
  dbmr_likelihood (update_Lambda C G) G' C <= 0.
Proof.
  intros HG HG'.
  rewrite (dbmr_likelihood_by_index (N C) K);
    [|apply shape_update_Lambda, HG|apply HG'|assumption].
  rewrite <- (bigsum_const0 (N C)). apply bigsum_le. intros i Hi.
  rewrite <- (bigsum_const0 (N C)). apply bigsum_le. intros j Hj.
  rewrite <- (bigsum_const0 K). apply bigsum_le. intros k Hk.
  destruct (update_Lambda_unit_interval G i k HG Hi Hk) as [_ Hle1].
  assert (Hln : ln (Rmax (Np.get (update_Lambda C G) i k) 1e-16) <= 0).
  { rewrite <- ln_1. apply ln_le_mono.
    - eapply Rlt_le_trans; [|apply Rmax_r]. lra.
    - apply Rmax_lub; lra. }
  assert (Hc : 0 <= Np.get C i j) by now apply nonnegative_get.
  pose proof (one_hot_entry_ge C K G' k j HG' Hk Hj) as Hg.
  assert (0 <= Np.get C i j * Np.get G' k j) by (apply Rmult_le_pos; lra).
  nra.
Qed.

End Ranges.

Section RangeInvariants.

Variable C : matrix.
Variable K : nat.
Variable convergence : R.
Variable max_iter : Z.

Lemma body_lls_nonpositive (s s' : state) :
  (0 < K)%nat -> shape (N C) (N C) C -> nonnegative C ->
  0 < bigsum (N C) (fun i => bigsum (N C) (fun j => Np.get C i j)) ->
  assignment C K (Gamma s) -> body C K s = inr s' ->
  Forall (fun x => x <= 0) (lls s) -> Forall (fun x => x <= 0) (lls s').
Proof.
  intros HK HC Hnn Htot HG Hb Hall.
  pose proof (body_assignment _ _ _ _ HK (proj1 HG) Hb) as HG'.
  destruct (body_inr _ _ _ _ Hb) as (HL & _ & -> & _).
  apply Forall_app. split; [assumption|]. constructor; [|constructor].
  rewrite HL. now apply (pass_likelihood_nonpositive C K).
Qed.

Lemma loop_head_lls_nonpositive (s0 s : state) :
  (0 < K)%nat -> shape (N C) (N C) C -> nonnegative C ->
  0 < bigsum (N C) (fun i => bigsum (N C) (fun j => Np.get C i j)) ->
  assignment C K (Gamma s0) -> lls s0 = [] ->
  loop_head C K convergence max_iter s0 s -> Forall (fun x => x <= 0) (lls s).
Proof.
  intros HK HC Hnn Htot Ha0 Hl0 Hh.
  induction Hh as [|s s' Hh IH Hd Hb Hl]; [rewrite Hl0; constructor|].
  apply (body_lls_nonpositive s s'); auto.
  apply (loop_head_assignment C K convergence max_iter s0 s); auto.
Qed.

End RangeInvariants.

(** X14.  For nonnegative counts that are not all zero and a threshold
    [convergence < 1], every entry of the returned [Lambda] lies between 0
    and 1. *)
Theorem returned_Lambda_entries_in_unit_interval
    (C : matrix) (K : nat) (convergence : R) (max_iter : Z) (random_sample : matrix) :
  (1 <= K)%nat -> shape (N C) (N C) C -> nonnegative C ->
  0 < bigsum (N C) (fun i => bigsum (N C) (fun j => Np.get C i j)) ->
  convergence < 1 ->
  forall fuel, (Z.max 1 (max_iter + 1) <= Z.of_nat fuel)%Z ->
  exists L G ll out,
    estimate_dbmr C K convergence max_iter fuel random_sample =
    Some (inr ((L, G, ll), out)) /\
    forall i k, (i < N C)%nat -> (k < K)%nat -> 0 <= Np.get L i k <= 1.
Proof.
  intros HK HC Hnn Htot Hc fuel Hf.
  destruct (estimate_dbmr_stops C K convergence max_iter random_sample fuel)
    as (s0 & s' & out & H0 & Hst & He); [lia|lia|].
  exists (Lambda s'), (Gamma s'), (lls s'), out. split; [assumption|].
  destruct (initial_state_fields _ _ _ _ H0) as (_ & Ha0 & _ & Hd).
  assert (Ha : after_pass C K convergence max_iter s0 s')
    by (eapply stops_after_pass; [rewrite Hd; lra|exact Hst]).
  destruct Ha as (s & Hh & _ & Hb).
  destruct (body_inr _ _ _ _ Hb) as (-> & _).
  intros i k Hi Hk. apply (update_Lambda_unit_interval C K); auto.
  apply (loop_head_assignment C K convergence max_iter s0 s); auto; lia.
Qed.

(** X15.  For nonnegative counts that are not all zero, every likelihood
    recorded in the returned trace is at most 0. *)
Theorem recorded_likelihoods_are_nonpositive
    (C : matrix) (K : nat) (convergence : R) (max_iter : Z) (random_sample : matrix) :
  (1 <= K)%nat -> shape (N C) (N C) C -> nonnegative C ->
  0 < bigsum (N C) (fun i => bigsum (N C) (fun j => Np.get C i j)) ->
  forall fuel, (Z.max 1 (max_iter + 1) <= Z.of_nat fuel)%Z ->
  exists L G ll out,
    estimate_dbmr C K convergence max_iter fuel random_sample =
    Some (inr ((L, G, ll), out)) /\
    Forall (fun x => x <= 0) ll.
Proof.
  intros HK HC Hnn Htot fuel Hf.
  destruct (estimate_dbmr_stops C K convergence max_iter random_sample fuel)
    as (s0 & s' & out & H0 & Hst & He); [lia|lia|].
  exists (Lambda s'), (Gamma s'), (lls s'), out. split; [assumption|].
  destruct (initial_state_fields _ _ _ _ H0) as (_ & Ha0 & Hl0 & _).
  destruct Hst as [Hh _ _|(s & Hh & _ & Hb) _ _].
  - apply (loop_head_lls_nonpositive C K convergence max_iter s0 s'); auto; lia.
  - apply (body_lls_nonpositive C K s s'); auto; try lia.
    + apply (loop_head_assignment C K convergence max_iter s0 s); auto; lia.
    + apply (loop_head_lls_nonpositive C K convergence max_iter s0 s); auto; lia.
Qed.

(** X16.  The floor bounds [dbmr_likelihood] from below whatever [Lambda]
    holds: for nonnegative [Gamma] and counts it is at least [log(1e-16)]
    times the sum over all [i], [j], [k] of [Count[i,j] * Gamma[k,j]]. *)
Theorem dbmr_likelihood_floor_bound (n K : nat) (L G Count : matrix) :
  shape n K L -> shape K n G -> shape n n Count ->
  nonnegative G -> nonnegative Count ->
  bigsum n (fun i => bigsum n (fun j => bigsum K (fun k =>
    Np.get Count i j * Np.get G k j))) * ln 1e-16 <=
  dbmr_likelihood L G Count.
Proof.
  intros HL HG HC HGnn HCnn.
  rewrite (dbmr_likelihood_by_index n K) by assumption.
  rewrite <- bigsum_scal_r. apply bigsum_le. intros i Hi.
  rewrite <- bigsum_scal_r. apply bigsum_le. intros j Hj.
  rewrite <- bigsum_scal_r. apply bigsum_le. intros k Hk.
  apply Rmult_le_compat_l.
  - apply Rmult_le_pos; now apply nonnegative_get.
  - apply ln_le_mono; [lra|apply Rmax_r].
Qed.

(** ** Edge inputs *)

Section EdgeInputs.

Lemma shape_no_columns (r : nat) (G : matrix) : shape r 0 G -> G = repeat [] r.
Proof.
  intros HG. apply (matrix_ext r 0); [assumption| |intros; lia].
  split; [apply repeat_length|].
  apply Forall_forall. intros row Hrow. now apply repeat_spec in Hrow as ->.
Qed.

Lemma shape_no_rows (c : nat) (L : matrix) : shape 0 c L -> L = [].
Proof. intros [Hl _]. now destruct L. Qed.

Lemma argmax_constant (v : list R) (c : R) :
  (forall k, (k < List.length v)%nat -> nth k v 0 = c) -> Np.argmax v = O.
Proof.
  intros Hc. destruct v as [|x v]; [reflexivity|].
  destruct (argmax_first_max (x :: v)) as (Hlt & _ & Hfirst); [discriminate|].
  destruct (Np.argmax (x :: v)) as [|m] eqn:E; [reflexivity|].
  specialize (Hfirst O (Nat.lt_0_succ m)).
  rewrite (Hc O), (Hc (S m)) in Hfirst by (simpl in *; lia). lra.
Qed.

Lemma body_ext (C : matrix) (K : nat) (s s' : state) :
  Gamma s = Gamma s' -> lls s = lls s' -> body C K s = body C K s'.
Proof. intros HG Hl. unfold body. now rewrite HG, Hl. Qed.

End EdgeInputs.

(** X17.  For an empty count matrix, [K >= 1], [0 <= convergence < 1] and
    [max_iter >= 1], the call returns an empty [Lambda], a [Gamma] of [K]
    empty rows and the trace [[0, 0]]; the diagnostic is printed only when
    [max_iter = 1]. *)
Theorem empty_count_matrix
    (K : nat) (convergence : R) (max_iter : Z) (random_sample : matrix) :
  (1 <= K)%nat -> 0 <= convergence -> convergence < 1 -> (1 <= max_iter)%Z ->
  forall fuel, (2 <= fuel)%nat ->
  estimate_dbmr [] K convergence max_iter fuel random_sample =
  Some (inr (([], repeat [] K, [0; 0]),
             if (2 >? max_iter)%Z
             then [[ Str "Did not converge to a delta log-likelohood below";
                     Float convergence; FormatE 0; FormatI max_iter ]]
             else [])).
Proof.
  intros HK Hc0 Hc1 Hm fuel Hf.
  assert (HK' : (0 < K)%nat) by lia.
  destruct (initial_state_inr [] K random_sample HK')
    as (s0 & H0 & _ & Ha0 & Hl0 & Hd0).
  destruct (body_total [] K s0 HK' (proj1 Ha0)) as (s1 & Hb1 & Ha1).
  destruct (body_total [] K s1 HK' (proj1 Ha1)) as (s2 & Hb2 & Ha2).
  assert (HG : Gamma s1 = Gamma s0)
    by (now rewrite (shape_no_columns K _ (proj1 Ha1)),
                    (shape_no_columns K _ (proj1 Ha0))).
  destruct (body_after_repeated_assignment [] K s0 s1 s2 Hb1 Hb2 HG)
    as (_ & _ & Hd2 & _).
  destruct (body_inr _ _ _ _ Hb1) as (_ & _ & Hll1 & Hd1). rewrite Hl0 in Hll1, Hd1.
  destruct (body_inr _ _ _ _ Hb2) as (HL2 & _ & Hll2 & _).
  assert (Hlls : lls s2 = [0; 0]) by (rewrite Hll2, Hll1; reflexivity).
  unfold estimate_dbmr. rewrite H0.
  rewrite (while_loop_two_passes [] K convergence max_iter fuel s0 s1 s2);
    try assumption.
  - rewrite Hlls, Hd2, (shape_no_columns K _ (proj1 Ha2)).
    rewrite (shape_no_rows K (Lambda s2)); [reflexivity|].
    rewrite HL2. apply (shape_update_Lambda [] K), Ha1.
  - rewrite Hd0. lra.
  - rewrite Hll1. simpl. lia.
  - rewrite Hd1. lra.
  - rewrite Hd2. lra.
Qed.

(** X18.  A latent state to which no observed state is assigned (its row
    of [Gamma] holds the floor everywhere) receives, in the update, the
    row sums of [C] divided by their total: the floor cancels. *)
Theorem unassigned_latent_state_gets_the_marginal
    (C : matrix) (K : nat) (G : matrix) (i k : nat) :
  shape (N C) (N C) C -> shape K (N C) G -> (i < N C)%nat -> (k < K)%nat ->
  (forall j, (j < N C)%nat -> Np.get G k j = 1e-16) ->
  Np.get (update_Lambda C G) i k =
  bigsum (N C) (fun j => Np.get C i j) /
  bigsum (N C) (fun i' => bigsum (N C) (fun j => Np.get C i' j)).
Proof.
  intros HC HG Hi Hk Hrow.
  assert (Hraw : forall i', (i' < N C)%nat ->
            Np.get (Lambda_new_un C G) k i' =
            bigsum (N C) (fun j => Np.get C i' j) * 1e-16).
  { intros i' Hi'. rewrite (Lambda_new_un_entry C K) by assumption.
    rewrite <- bigsum_scal_r. apply bigsum_ext. intros j Hj. now rewrite Hrow. }
  rewrite (update_Lambda_entry C K) by assumption.
  rewrite (bigsum_ext (N C) (fun i' => Np.get (Lambda_new_un C G) k i')
             (fun i' => bigsum (N C) (fun j => Np.get C i' j) * 1e-16) Hraw).
  rewrite bigsum_scal_r, (Hraw i Hi).
  set (a := bigsum (N C) (fun j => Np.get C i j)).
  set (b := bigsum (N C) (fun i' => bigsum (N C) (fun j => Np.get C i' j))).
  assert (He : 1e-16 * / 1e-16 = 1) by (apply Rinv_r; lra).
  revert He. generalize 1e-16. intros e He.
  unfold Rdiv. rewrite Rinv_mult.
  transitivity (a * / b * (e * / e)); [ring|rewrite He; ring].
Qed.

(** X19.  The random draw matters only through the initial assignment:
    for [convergence < 1], two draws that give the same initial [Gamma]
    give the same result. *)
Theorem draw_matters_only_through_initial_assignment
    (C : matrix) (K : nat) (convergence : R) (max_iter : Z)
    (draw1 draw2 : matrix) (s1 s2 : state) :
  initial_state C K draw1 = inr s1 -> initial_state C K draw2 = inr s2 ->
  Gamma s1 = Gamma s2 -> convergence < 1 ->
  forall fuel,
    estimate_dbmr C K convergence max_iter fuel draw1 =
    estimate_dbmr C K convergence max_iter fuel draw2.
Proof.
  intros H1 H2 HG Hc fuel. unfold estimate_dbmr. rewrite H1, H2.
  destruct (initial_state_fields _ _ _ _ H1) as (_ & _ & Hl1 & Hd1).
  destruct (initial_state_fields _ _ _ _ H2) as (_ & _ & Hl2 & Hd2).
  assert (Hw : while_loop C K convergence max_iter fuel s1 =
               while_loop C K convergence max_iter fuel s2).
  { destruct fuel as [|fuel]; simpl; rewrite Hd1, Hd2;
      destruct (Rgt_dec 1 convergence); try lra; [reflexivity|].
    now rewrite (body_ext C K s1 s2) by (auto; congruence). }
  now rewrite Hw.
Qed.

(** X20.  An observed state whose row of counts is all zero scores 0 for
    every latent state, so the tie goes to the first one: the assignment
    puts it in latent state 0. *)
Theorem zero_row_goes_to_the_first_latent_state
    (C : matrix) (K : nat) (L G0 : matrix) (j : nat) :
  (1 <= K)%nat -> shape (N C) (N C) C -> shape (N C) K L ->
  shape K (N C) G0 -> constant K (N C) G0 1e-16 ->
  (j < N C)%nat -> (forall i, (i < N C)%nat -> Np.get C j i = 0) ->
  exists G,
    hard_assignment C K L G0 = inr G /\
    forall k, (k < K)%nat -> Np.get G k j = if Nat.eqb k 0 then 1 else 1e-16.
Proof.
  intros HK HC HL HG0 Hfloor Hj Hrow.
  destruct (hard_assignment_inr C K L G0) as (G & HG & _ & Hget); [lia|assumption|].
  exists G. split; [assumption|]. intros k Hk.
  rewrite Hget by assumption.
  rewrite (score_column C K L j HC HL Hj).
  rewrite (argmax_constant _ 0).
  - destruct (Nat.eqb k 0); [reflexivity|]. now apply Hfloor.
  - intros k'. rewrite length_map, length_seq. intros Hk'.
    rewrite (nth_map_lt _ _ _ O) by (now rewrite length_seq).
    unfold score_code. rewrite <- (bigsum_const0 (N C)).
    apply bigsum_ext. intros i Hi. rewrite Hrow by assumption. ring.
Qed.

(** X21.  An observed state whose row of counts is all zero gets
    probability 0 under every latent state whose normalization denominator
    is not zero. *)
Theorem zero_row_gets_zero_probability
    (C : matrix) (K : nat) (G : matrix) (i k : nat) :
  shape (N C) (N C) C -> shape K (N C) G -> (i < N C)%nat -> (k < K)%nat ->
  nth k (Np.sum_axis1 (Lambda_new_un C G)) 0 <> 0 ->
  (forall j, (j < N C)%nat -> Np.get C i j = 0) ->
  Np.get (update_Lambda C G) i k = 0.
Proof.
  intros HC HG Hi Hk Hden Hrow.
  rewrite (update_Lambda_entry C K) by assumption.
  rewrite (Lambda_new_un_entry C K) by assumption.
  rewrite (bigsum_ext _ _ (fun _ => 0)), bigsum_const0.
  - rewrite (sum_axis1_Lambda_new_un C K) in Hden by assumption.
    now apply Rdiv_0_l.
  - intros j Hj. rewrite Hrow by assumption. ring.
Qed.

(** ** The further properties at concrete inputs *)

Lemma shape_C_shift : shape 2 2 Examples.C_shift.
Proof. split; [reflexivity|repeat constructor]. Defined.

Lemma shape_C_rows : shape 2 2 Examples.C_rows.
Proof. split; [reflexivity|repeat constructor]. Defined.

Lemma C_diag_total_positive :
  0 < bigsum 2 (fun i => bigsum 2 (fun j => Np.get Examples.C_diag i j)).
Proof. unfold bigsum, Np.get. simpl. lra. Defined.

Lemma symmetric_C_diag : symmetric Examples.C_diag.
Proof.
  intros i j. unfold Np.get, Examples.C_diag.
  destruct i as [|[|i]], j as [|[|j]]; simpl; try reflexivity;
    try (destruct i; reflexivity); try (destruct j; reflexivity).
  destruct i, j; reflexivity.
Defined.

Lemma nonnegative_C_rows : nonnegative Examples.C_rows.
Proof. repeat constructor; lra. Defined.

Lemma C_rows_total_positive :
  0 < bigsum 2 (fun i => bigsum 2 (fun j => Np.get Examples.C_rows i j)).
Proof. unfold bigsum, Np.get. simpl. lra. Defined.

Lemma floor_array_constant (r c : nat) :
  constant r c (Np.add_scalar (Np.zeros r c) 1e-16) 1e-16.
Proof. intros i j Hi Hj. now apply get_floor_array. Defined.

Lemma diagnostic_exactly_at_the_cap_witness :
  exists L G ll out,
    estimate_dbmr Examples.C_diag 2 1e-16 1000 1001 Examples.draw =
    Some (inr ((L, G, ll), out)) /\
    ((out = [] /\ (Z.of_nat (List.length ll) <= 1000)%Z) \/
     (exists d,
        out = [[ Str "Did not converge to a delta log-likelohood below";
                 Float 1e-16; FormatE d; FormatI 1000 ]] /\
        Z.of_nat (List.length ll) = (1000 + 1)%Z)).
Proof.
  apply (diagnostic_exactly_at_the_cap Examples.C_diag 2 1e-16 1000 Examples.draw); lia.
Defined.

Lemma at_least_two_passes_witness :
  exists L G ll out,
    estimate_dbmr Examples.C_diag 2 1e-16 1000 1001 Examples.draw =
    Some (inr ((L, G, ll), out)) /\
    (2 <= List.length ll)%nat /\ (Z.of_nat (List.length ll) <= 1000 + 1)%Z.
Proof.
  apply (at_least_two_passes Examples.C_diag 2 1e-16 1000 Examples.draw);
    try lia; lra.
Defined.

Lemma single_pass_below_one_iteration_witness :
  exists L G x,
    estimate_dbmr Examples.C_diag 2 1e-16 0 1 Examples.draw =
    Some (inr ((L, G, [x]),
               [[ Str "Did not converge to a delta log-likelohood below";
                  Float 1e-16; FormatE 1; FormatI 0 ]])).
Proof.
  apply (single_pass_below_one_iteration Examples.C_diag 2 1e-16 0 Examples.draw);
    try lia; lra.
Defined.


Lemma diagnostic_reports_last_delta_witness :
  exists L G ll out,
    estimate_dbmr Examples.C_diag 2 1e-16 1 2 Examples.draw =
    Some (inr ((L, G, ll), out)) /\
    forall line, In line out ->
      exists d,
        line = [ Str "Did not converge to a delta log-likelohood below";
                 Float 1e-16; FormatE d; FormatI 1 ] /\
        ((exists x, ll = [x] /\ d = 1) \/
         (exists pre a b, ll = pre ++ [a; b] /\ d = Rabs (b - a))).
Proof.
  apply (diagnostic_reports_last_delta Examples.C_diag 2 1e-16 1 Examples.draw); lia.
Defined.


Lemma returned_estimate_is_consistent_witness :
  exists L G ll out,
    estimate_dbmr Examples.C_diag 2 1e-16 1000 1001 Examples.draw =
    Some (inr ((L, G, ll), out)) /\
    hard_assignment Examples.C_diag 2 L (Np.fill G 1e-16) = inr G /\
    (ll = [] \/ exists pre, ll = pre ++ [dbmr_likelihood L G Examples.C_diag]).
Proof.
  apply (returned_estimate_is_consistent Examples.C_diag 2 1e-16 1000 Examples.draw); lia.
Defined.

Lemma repeated_assignment_gives_zero_delta_witness :
  exists s0 s1 s2,
    initial_state Examples.C_rows 1 Examples.draw_single = inr s0 /\
    body Examples.C_rows 1 s0 = inr s1 /\ body Examples.C_rows 1 s1 = inr s2 /\
    Lambda s2 = Lambda s1 /\ Gamma s2 = Gamma s1 /\ delta_ll s2 = 0 /\
    (exists x, lls s2 = lls s0 ++ [x; x]) /\
    forall convergence max_iter fuel, 0 <= convergence ->
      while_loop Examples.C_rows 1 convergence max_iter fuel s2 = Some (inr (s2, [])).
Proof.
  destruct (initial_state_inr Examples.C_rows 1 Examples.draw_single Nat.lt_0_1)
    as (s0 & H0 & _ & Ha0 & _).
  destruct (body_total Examples.C_rows 1 s0 Nat.lt_0_1 (proj1 Ha0)) as (s1 & Hb1 & Ha1).
  destruct (body_total Examples.C_rows 1 s1 Nat.lt_0_1 (proj1 Ha1)) as (s2 & Hb2 & _).
  exists s0, s1, s2. split; [exact H0|]. split; [exact Hb1|]. split; [exact Hb2|].
  apply (repeated_assignment_gives_zero_delta Examples.C_rows 1 s0 s1 s2
           shape_C_rows nonnegative_C_rows C_rows_total_positive Ha0 Hb1 Hb2).
  now rewrite (assignment_single _ _ Ha1), (assignment_single _ _ Ha0).
Defined.

Lemma single_latent_state_two_passes_witness :
  exists L G x,
    estimate_dbmr Examples.C_rows 1 1e-16 1000 2 Examples.draw_single =
    Some (inr ((L, G, [x; x]),
               if (2 >? 1000)%Z
               then [[ Str "Did not converge to a delta log-likelohood below";
                       Float 1e-16; FormatE 0; FormatI 1000 ]]
               else [])).
Proof.
  apply (single_latent_state_two_passes Examples.C_rows 1e-16 1000 Examples.draw_single).
  - exact shape_C_rows.
  - exact nonnegative_C_rows.
  - exact C_rows_total_positive.
  - lra.
  - lra.
  - lia.
  - lia.
Defined.

Lemma returned_shapes_witness :
  exists L G ll out,
    estimate_dbmr Examples.C_diag 2 1e-16 1000 1001 Examples.draw =
    Some (inr ((L, G, ll), out)) /\
    shape 2 2 L /\ shape 2 2 G.
Proof.
  apply (returned_shapes Examples.C_diag 2 1e-16 1000 Examples.draw);
    [lia|exact shape_draw|lia].
Defined.

Lemma hard_assignment_is_first_argmax_over_rows_witness :
  exists G,
    hard_assignment Examples.C_shift 2 Examples.draw
                    (Np.add_scalar (Np.zeros 2 2) 1e-16) = inr G /\
    forall j, (j < 2)%nat ->
    exists m,
      first_max (map (score_code Examples.C_shift Examples.draw j) (seq 0 2)) m /\
      forall k, (k < 2)%nat -> Np.get G k j = if Nat.eqb k m then 1 else 1e-16.
Proof.
  apply (hard_assignment_is_first_argmax_over_rows Examples.C_shift 2 Examples.draw).
  - lia.
  - exact shape_C_shift.
  - exact shape_draw.
  - apply shape_add_scalar, shape_zeros.
  - apply floor_array_constant.
Defined.

Lemma symmetric_counts_give_the_column_assignment_witness :
  hard_assignment Examples.C_diag 2 Examples.draw (Np.add_scalar (Np.zeros 2 2) 1e-16) =
  inr (hard_assignment_spec Examples.C_diag 2 Examples.draw).
Proof.
  apply (symmetric_counts_give_the_column_assignment Examples.C_diag 2 Examples.draw).
  - lia.
  - exact shape_C_diag.
  - exact shape_draw.
  - exact symmetric_C_diag.
  - apply shape_add_scalar, shape_zeros.
  - apply floor_array_constant.
Defined.

Lemma returned_Lambda_entries_in_unit_interval_witness :
  exists L G ll out,
    estimate_dbmr Examples.C_diag 2 1e-16 1000 1001 Examples.draw =
    Some (inr ((L, G, ll), out)) /\
    forall i k, (i < 2)%nat -> (k < 2)%nat -> 0 <= Np.get L i k <= 1.
Proof.
  apply (returned_Lambda_entries_in_unit_interval
           Examples.C_diag 2 1e-16 1000 Examples.draw).
  - lia.
  - exact shape_C_diag.
  - exact nonnegative_C_diag.
  - exact C_diag_total_positive.
  - lra.
  - lia.
Defined.

Lemma recorded_likelihoods_are_nonpositive_witness :
  exists L G ll out,
    estimate_dbmr Examples.C_diag 2 1e-16 1000 1001 Examples.draw =
    Some (inr ((L, G, ll), out)) /\
    Forall (fun x => x <= 0) ll.
Proof.
  apply (recorded_likelihoods_are_nonpositive Examples.C_diag 2 1e-16 1000 Examples.draw).
  - lia.
  - exact shape_C_diag.
  - exact nonnegative_C_diag.
  - exact C_diag_total_positive.
  - lia.
Defined.

Lemma dbmr_likelihood_floor_bound_witness :
  bigsum 2 (fun i => bigsum 2 (fun j => bigsum 2 (fun k =>
    Np.get Examples.C_diag i j * Np.get [[1; 1e-16]; [1e-16; 1]] k j))) * ln 1e-16 <=
  dbmr_likelihood [[0; 1]; [1; 0]] [[1; 1e-16]; [1e-16; 1]] Examples.C_diag.
Proof.
  apply (dbmr_likelihood_floor_bound 2 2).
  - split; [reflexivity|repeat constructor].
  - split; [reflexivity|repeat constructor].
  - exact shape_C_diag.
  - repeat constructor; lra.
  - exact nonnegative_C_diag.
Defined.

Lemma empty_count_matrix_witness :
  estimate_dbmr [] 2 1e-16 1000 2 [] =
  Some (inr (([], repeat [] 2, [0; 0]),
             if (2 >? 1000)%Z
             then [[ Str "Did not converge to a delta log-likelohood below";
                     Float 1e-16; FormatE 0; FormatI 1000 ]]
             else [])).
Proof.
  apply (empty_count_matrix 2 1e-16 1000 []); try lia; lra.
Defined.

Lemma unassigned_latent_state_gets_the_marginal_witness :
  Np.get (update_Lambda Examples.C_rows [[1; 1]; [1e-16; 1e-16]]) 1 1 =
  bigsum 2 (fun j => Np.get Examples.C_rows 1 j) /
  bigsum 2 (fun i' => bigsum 2 (fun j => Np.get Examples.C_rows i' j)).
Proof.
  apply (unassigned_latent_state_gets_the_marginal
           Examples.C_rows 2 [[1; 1]; [1e-16; 1e-16]] 1 1).
  - exact shape_C_rows.
  - split; [reflexivity|repeat constructor].
  - simpl. lia.
  - lia.
  - intros j Hj. simpl in Hj. destruct j as [|[|j]]; [reflexivity|reflexivity|lia].
Defined.

Lemma draw_matters_only_through_initial_assignment_witness :
  estimate_dbmr Examples.C_rows 1 1e-16 1000 1001 Examples.draw_single =
  estimate_dbmr Examples.C_rows 1 1e-16 1000 1001 [[1/4]; [3/4]].
Proof.
  destruct (initial_state_inr Examples.C_rows 1 Examples.draw_single Nat.lt_0_1)
    as (s1 & H1 & _ & Ha1 & _).
  destruct (initial_state_inr Examples.C_rows 1 [[1/4]; [3/4]] Nat.lt_0_1)
    as (s2 & H2 & _ & Ha2 & _).
  assert (HG : Gamma s1 = Gamma s2)
    by (now rewrite (assignment_single _ _ Ha1), (assignment_single _ _ Ha2)).
  assert (Hc : 1e-16 < 1) by lra.
  exact (draw_matters_only_through_initial_assignment
           Examples.C_rows 1 1e-16 1000 Examples.draw_single [[1/4]; [3/4]] s1 s2
           H1 H2 HG Hc 1001%nat).
Defined.

Lemma zero_row_goes_to_the_first_latent_state_witness :
  exists G,
    hard_assignment Examples.C_shift 2 Examples.draw
                    (Np.add_scalar (Np.zeros 2 2) 1e-16) = inr G /\
    forall k, (k < 2)%nat -> Np.get G k 1 = if Nat.eqb k 0 then 1 else 1e-16.
Proof.
  apply (zero_row_goes_to_the_first_latent_state Examples.C_shift 2 Examples.draw).
  - lia.
  - exact shape_C_shift.
  - exact shape_draw.
  - apply shape_add_scalar, shape_zeros.
  - apply floor_array_constant.
  - simpl. lia.
  - intros i Hi. simpl in Hi. destruct i as [|[|i]]; [reflexivity|reflexivity|lia].
Defined.

Lemma zero_row_gets_zero_probability_witness :
  Np.get (update_Lambda Examples.C_shift [[1; 1]; [1e-16; 1e-16]]) 1 0 = 0.
Proof.
  apply (zero_row_gets_zero_probability Examples.C_shift 2 [[1; 1]; [1e-16; 1e-16]] 1 0).
  - exact shape_C_shift.
  - split; [reflexivity|repeat constructor].
  - simpl. lia.
  - lia.
  - unfold Np.sum_axis1, Lambda_new_un, Np.einsum_ij_kj_ki, Np.dot. simpl. lra.
  - intros j Hj. simpl in Hj. destruct j as [|[|j]]; [reflexivity|reflexivity|lia].
Defined.

(** * Division by zero over binary64 *)

(** ** NaN and infinities in the arithmetic *)

Section BinaryArithmetic.







Lemma is_nan_nonfinite (x : float) : is_nan x = true -> Binary64.nonfinite x = true.
Proof. intros H. unfold Binary64.nonfinite. now rewrite H. Qed.















End BinaryArithmetic.

(** ** Sums that hold a NaN or an infinity *)

Section Absorbing.

(** [P] is a class of numbers that addition and multiplication do not
    leave: NaN, or NaN and the infinities. *)
Variable P : float -> bool.
Hypothesis P_add_l : forall x y, P x = true -> P (x + y)%float = true.
Hypothesis P_add_r : forall x y, P y = true -> P (x + y)%float = true.
Hypothesis P_mul_r : forall x y, P y = true -> P (x * y)%float = true.






End Absorbing.

(** ** The binary64 program *)

Section BinaryEntries.










End BinaryEntries.

Section BinaryProgram.

Variable log : float -> float.
Variable C : Binary64.fmatrix.
Variable K : nat.
Variable convergence : float.
Variable max_iter : Z.











Section Likelihood.

Variable P : float -> bool.
Hypothesis P_add_l : forall x y, P x = true -> P (x + y)%float = true.
Hypothesis P_add_r : forall x y, P y = true -> P (x + y)%float = true.
Hypothesis P_mul_r : forall x y, P y = true -> P (x * y)%float = true.


End Likelihood.

End BinaryProgram.

Section Floor.

Variable log : float -> float.
Hypothesis log_nan : log nan = nan.
Hypothesis log_infinity : log infinity = infinity.



End Floor.


